(** * ktr/office: the column codec of [excel.py] and the free-slot finder
      of [outlook.py], embedded shallowly and checked against the
      specification.

    Python integers are unbounded and become [Z]; [str] becomes [string]
    (a character is an [ascii]); a [while] loop becomes a recursion on a
    [fuel] bound that counts the executions of its body; an exception is
    an abnormal [outcome]. *)

From Stdlib Require Import ZArith Lia List Bool Ascii String Permutation.
From stdpp Require Import base strings gmap.
Import ListNotations.
Local Open Scope Z_scope.

(** ** Outcomes of a Python call *)

(** An exception is identified by the name of its class. *)
Definition exn := string.

Definition IndexError : exn := "IndexError"%string.
Definition OverflowError : exn := "OverflowError"%string.
Definition TypeError : exn := "TypeError"%string.

(** A call returns a value, raises, or is still running when the fuel of
    one of its loops is spent. *)
Inductive outcome (A : Type) : Type :=
| Returns (a : A)
| Raises (e : exn)
| Diverges.
Arguments Returns {A} a.
Arguments Raises {A} e.
Arguments Diverges {A}.

Definition obind {A B} (m : outcome A) (k : A -> outcome B) : outcome B :=
  match m with
  | Returns a => k a
  | Raises e => Raises e
  | Diverges => Diverges
  end.

Notation "'let!' x ':=' m 'in' k" := (obind m (fun x => k))
  (at level 10, x pattern, m at level 100, k at level 200).

(** ** excel.py: [num2col] and [col2num] *)

Module Excel.

(** [string.ascii_lowercase], [string.ascii_uppercase], [string.ascii_letters]. *)
Definition ascii_lowercase : string := "abcdefghijklmnopqrstuvwxyz".
Definition ascii_uppercase : string := "ABCDEFGHIJKLMNOPQRSTUVWXYZ".
Definition ascii_letters : string := ascii_lowercase ++ ascii_uppercase.

(** [ord(c)]. *)
Definition ord (c : ascii) : Z := Z.of_N (N_of_ascii c).

(** [c in s] for a one-character string [c]. *)
Definition char_in (c : ascii) (s : string) : bool :=
  existsb (Ascii.eqb c) (list_ascii_of_string s).

(** [c.upper()]; the source applies it to members of [ascii_letters] only,
    on which it is the shift by 32 of the lowercase range. *)
Definition upper (c : ascii) : ascii :=
  if char_in c ascii_lowercase
  then ascii_of_N (N_of_ascii c - 32)
  else c.

(** [divmod(a, b)]: floor division and the remainder with the sign of [b]. *)
Definition divmod (a b : Z) : Z * Z := (a / b, a mod b).

(** The loop of [num2col]:
<<
    while num:
        num, rem = divmod(num-1, 26)
        result[:0] = string.ascii_uppercase[rem]
>>
    [fuel] bounds the number of executions of the body. *)
Fixpoint num2col_loop (fuel : nat) (num : Z) (result : list ascii)
  : outcome (list ascii) :=
  if num =? 0 then Returns result
  else match fuel with
       | O => Diverges
       | S fuel' =>
           let '(num', rem) := divmod (num - 1) 26 in
           match String.get (Z.to_nat rem) ascii_uppercase with
           | Some c => num2col_loop fuel' num' (c :: result)
           | None => Raises IndexError
           end
       end.

(** [num2col(num)]: [result = []], the loop, [''.join(result)]. *)
Definition num2col (fuel : nat) (num : Z) : outcome string :=
  let! result := num2col_loop fuel num [] in
  Returns (string_of_list_ascii result).

(** One round of the [for] loop of [col2num]. *)
Definition col2num_step (num : Z) (c : ascii) : Z :=
  if char_in c ascii_letters
  then num * 26 + (ord (upper c) - ord "A") + 1
  else num.

(** [col2num(ltr)]. *)
Definition col2num (ltr : string) : Z :=
  fold_left col2num_step (list_ascii_of_string ltr) 0.

End Excel.

(** ** outlook.py: [find_open_slots] *)

Module Outlook.

(** *** Instants and durations *)

(** A [datetime.datetime] in UTC is the number of microseconds since
    0001-01-01 00:00, a [datetime.timedelta] a number of microseconds.
    All appointments are taken in one time zone, as the specification
    has it. *)
Abbreviation datetime := Z (only parsing).
Abbreviation timedelta := Z (only parsing).

Definition us_per_minute : Z := 60000000.
Definition us_per_hour : Z := 3600000000.
Definition us_per_day : Z := 86400000000.

(** [datetime.timedelta(minutes=n)]. *)
Definition timedelta_minutes (n : Z) : timedelta := n * us_per_minute.

(** [date.max.toordinal()], the ordinal of 9999-12-31. *)
Definition MAXORDINAL : Z := 3652059.

(** [t + d]: out of the years 1 to 9999 the sum raises [OverflowError]. *)
Definition dt_add (t : datetime) (d : timedelta) : outcome datetime :=
  if (0 <=? t + d) && (t + d <? MAXORDINAL * us_per_day)
  then Returns (t + d)
  else Raises OverflowError.

(** [t.toordinal()]: day 1 is 0001-01-01. *)
Definition toordinal (t : datetime) : Z := t / us_per_day + 1.

(** The proleptic Gregorian date of an ordinal, as (year, month, day). *)
Definition ymd_of_ordinal (n : Z) : Z * Z * Z :=
  let z := n + 305 in
  let era := z / 146097 in
  let doe := z mod 146097 in
  let yoe := (doe - doe / 1460 + doe / 36524 - doe / 146096) / 365 in
  let y := yoe + era * 400 in
  let doy := doe - (365 * yoe + yoe / 4 - yoe / 100) in
  let mp := (5 * doy + 2) / 153 in
  let d := doy - (153 * mp + 2) / 5 + 1 in
  let m := if mp <? 10 then mp + 3 else mp - 9 in
  (if m <=? 2 then y + 1 else y, m, d).

(** The ordinal of a date. *)
Definition ordinal_of_ymd (y m d : Z) : Z :=
  let y' := if m <=? 2 then y - 1 else y in
  let era := y' / 400 in
  let yoe := y' mod 400 in
  let mp := if m >? 2 then m - 3 else m + 9 in
  let doy := (153 * mp + 2) / 5 + d - 1 in
  let doe := yoe * 365 + yoe / 4 - yoe / 100 + doy in
  era * 146097 + doe - 305.

(** [t.year], [t.month], [t.day], [t.hour], [t.minute]. *)
Definition year (t : datetime) : Z := fst (fst (ymd_of_ordinal (toordinal t))).
Definition month (t : datetime) : Z := snd (fst (ymd_of_ordinal (toordinal t))).
Definition day (t : datetime) : Z := snd (ymd_of_ordinal (toordinal t)).
Definition hour (t : datetime) : Z := (t / us_per_hour) mod 24.
Definition minute (t : datetime) : Z := (t / us_per_minute) mod 60.

(** [utc.localize(datetime.datetime(y, m, d, h))]. *)
Definition datetime_ymdh (y m d h : Z) : datetime :=
  (ordinal_of_ymd y m d - 1) * us_per_day + h * us_per_hour.

(** [datetime.datetime(y, m, d, h, mi)] in UTC, to write examples. *)
Definition datetime_ymdhm (y m d h mi : Z) : datetime :=
  datetime_ymdh y m d h + mi * us_per_minute.

(** *** Lists and tuples *)

(** [l[i]] with Python's negative indices. *)
Definition py_index {A} (l : list A) (i : Z) : outcome A :=
  let n := Z.of_nat (length l) in
  let j := if i <? 0 then i + n else i in
  if (0 <=? j) && (j <? n)
  then match nth_error l (Z.to_nat j) with
       | Some a => Returns a
       | None => Raises IndexError
       end
  else Raises IndexError.

(** A (start, end) tuple; tuples compare by their first components, then
    by their second. *)
Abbreviation appt := (datetime * datetime)%type (only parsing).

Definition tuple_leb (a b : appt) : bool :=
  (fst a <? fst b) || ((fst a =? fst b) && (snd a <=? snd b)).

(** [sorted(l)]: a stable sort by [tuple_leb], here by insertion. *)
Fixpoint insert_sorted (a : appt) (l : list appt) : list appt :=
  match l with
  | [] => [a]
  | b :: l' => if tuple_leb a b then a :: l else b :: insert_sorted a l'
  end.

Definition sorted (l : list appt) : list appt := fold_right insert_sorted [] l.

(** *** What is printed *)

(** One call of [print]: the date header [f'\n{t:%Y-%m-%d}'] or the range
    [f'  {s:%I:%M %p} to {e:%I:%M %p}']. *)
Inductive line : Type :=
| DateLine (t : datetime)
| RangeLine (s e : datetime).

Definition digit (d : Z) : ascii := ascii_of_N (Z.to_N (48 + d mod 10)).

Definition pad2 (n : Z) : string :=
  String (digit (n / 10)) (String (digit n) EmptyString).

Definition pad4 (n : Z) : string :=
  String (digit (n / 1000)) (String (digit (n / 100)) (pad2 n)).

(** [%Y-%m-%d]. *)
Definition format_date (t : datetime) : string :=
  pad4 (year t) ++ "-" ++ pad2 (month t) ++ "-" ++ pad2 (day t).

(** [%I:%M %p]. *)
Definition format_time (t : datetime) : string :=
  let h12 := if hour t mod 12 =? 0 then 12 else hour t mod 12 in
  pad2 h12 ++ ":" ++ pad2 (minute t) ++ " " ++
  (if hour t <? 12 then "AM" else "PM").

Definition render (l : line) : string :=
  match l with
  | DateLine t => String (ascii_of_nat 10) (format_date t)
  | RangeLine s e => "  " ++ format_time s ++ " to " ++ format_time e
  end.

(** *** The three loops of [find_open_slots] *)

(** The generator [((slots[i][1], slots[i+1][0]) for i in range(len(slots)-1))]. *)
Fixpoint gaps (slots : list appt) : list (datetime * datetime) :=
  match slots with
  | a :: (b :: _) as slots' => (snd a, fst b) :: gaps slots'
  | _ => []
  end.

(** The inner loop, on the list [open_slots] it appends to:
<<
    while start + duration <= end:
        open_slots.append([start, start + duration])
        start += duration
>>  *)
Fixpoint subdivide (fuel : nat) (start end_ : datetime) (duration : timedelta)
  (open_slots : list (datetime * datetime)) : outcome (list (datetime * datetime)) :=
  let! next := dt_add start duration in
  if next <=? end_
  then match fuel with
       | O => Diverges
       | S fuel' =>
           subdivide fuel' next end_ duration (open_slots ++ [(start, next)])
       end
  else Returns open_slots.

(** The outer loop over the gaps. *)
Fixpoint fill (fuel : nat) (gs : list (datetime * datetime)) (duration : timedelta)
  (open_slots : list (datetime * datetime)) : outcome (list (datetime * datetime)) :=
  match gs with
  | [] => Returns open_slots
  | (start, end_) :: gs' =>
      let! open_slots' := subdivide fuel start end_ duration open_slots in
      fill fuel gs' duration open_slots'
  end.

(** The hour test of the last loop on one instant:
    [t.hour < hours[0].hour or t.hour > hours[1].hour]. *)
Definition outside_hours (hours : datetime * datetime) (t : datetime) : bool :=
  (hour t <? hour (fst hours)) || (hour t >? hour (snd hours)).

(** The last loop, [for slot in open_slots[1:]], from the value of [this]
    and the slots still to come to the lines it prints. A slot that is
    assigned to [this] is not read from the list again, so that the
    assignment [this[1] = slot[1]] is seen through [this] alone. *)
Fixpoint merge (hours : datetime * datetime) (this : datetime * datetime)
  (rest : list (datetime * datetime)) : list line :=
  match rest with
  | [] => []
  | slot :: rest' =>
      if outside_hours hours (fst slot) then merge hours this rest'
      else if outside_hours hours (snd slot) then merge hours this rest'
      else if fst slot <=? snd this
      then merge hours (fst this, snd slot) rest'
      else RangeLine (fst this) (snd this)
           :: (if negb (day (fst this) =? day (fst slot))
               then [DateLine (fst this)] else [])
           ++ merge hours slot rest'
  end.

(** [find_open_slots(appts, duration)]. The value is what the call has
    printed when it returns; each statement that can raise or loop comes
    before the first [print], so that a call that does not return has
    printed nothing. *)
Definition find_open_slots (fuel : nat) (appts : list appt)
  (duration : option timedelta) : outcome (list line) :=
  let! first := py_index appts 0 in
  let start := fst first in
  let! last := py_index appts (-1) in
  let end_ := snd last in
  let hours :=
    (datetime_ymdh (year start) (month start) (day start) 9,
     datetime_ymdh (year end_) (month end_) (day end_) 18) in
  let duration :=
    match duration with
    | None => timedelta_minutes 30
    | Some d => d
    end in
  let slots := sorted ([(fst hours, fst hours)] ++ appts ++ [(snd hours, snd hours)]) in
  let! open_slots := fill fuel (gaps slots) duration [] in
  let! this := py_index open_slots 0 in
  Returns (DateLine (fst this) :: merge hours this (skipn 1 open_slots)).

End Outlook.

(** ** outlook.py: [find_open_slots] on a heap of list objects *)

(** The same function with the objects it shares and changes in place: a
    Python list is an object on the heap, known by its address; the
    argument [appts] is the address of the caller's list. The lists
    [[start, start + duration]] and the list [open_slots] are objects
    that the call creates and changes ([append], [this[1] = slot[1]]),
    and [this], [slot] and the items of [open_slots] are references to
    them. Tuples and instants are immutable values. The list [slots],
    which nothing changes once [sorted] has built it, is held by value.
    What is printed goes to [stdout]. *)

Module OutlookHeap.
Import Outlook.

Inductive pyval : Type :=
| VInstant (t : Z)
| VTuple (a : Z * Z)
| VRef (l : nat).

Record world : Type := World {
  heap : gmap nat (list pyval);
  stdout : list line
}.

(** A statement: from a world to an outcome and the world it leaves. *)
Definition M (A : Type) : Type := world -> outcome A * world.

Definition ret {A} (a : A) : M A := fun w => (Returns a, w).

Definition lift {A} (o : outcome A) : M A := fun w => (o, w).

Definition bind {A B} (m : M A) (k : A -> M B) : M B :=
  fun w =>
    match m w with
    | (Returns a, w') => k a w'
    | (Raises e, w') => (Raises e, w')
    | (Diverges, w') => (Diverges, w')
    end.

Notation "'do!' x ':=' m 'in' k" := (bind m (fun x => k))
  (at level 10, x pattern, m at level 100, k at level 200).

(** A list display [[...]]: a new object at an address not in use. *)
Definition new_list (items : list pyval) : M nat :=
  fun w =>
    let l := fresh (dom (heap w)) in
    (Returns l, World (<[l := items]> (heap w)) (stdout w)).

(** The items of the list at [l]; an address without a list does not
    occur in a run that starts from the address of a list. *)
Definition load (l : nat) : M (list pyval) :=
  fun w =>
    match heap w !! l with
    | Some items => (Returns items, w)
    | None => (Raises TypeError, w)
    end.

(** [l[i]]. *)
Definition getitem (l : nat) (i : Z) : M pyval :=
  do! items := load l in lift (py_index items i).

(** [l[i] = v] for an index that is not negative. *)
Definition setitem (l : nat) (i : nat) (v : pyval) : M unit :=
  fun w =>
    match heap w !! l with
    | Some items =>
        if (i <? length items)%nat
        then (Returns tt, World (<[l := <[i := v]> items]> (heap w)) (stdout w))
        else (Raises IndexError, w)
    | None => (Raises TypeError, w)
    end.

(** [l.append(v)]. *)
Definition append (l : nat) (v : pyval) : M unit :=
  fun w =>
    match heap w !! l with
    | Some items => (Returns tt, World (<[l := items ++ [v]]> (heap w)) (stdout w))
    | None => (Raises TypeError, w)
    end.

(** [print(...)]. *)
Definition print (ln : line) : M unit :=
  fun w => (Returns tt, World (heap w) (stdout w ++ [ln])).

(** A value used as an instant, as a tuple, as a list. *)
Definition instant (v : pyval) : M Z :=
  match v with VInstant t => ret t | _ => lift (Raises TypeError) end.

Definition tuple (v : pyval) : M (Z * Z) :=
  match v with VTuple a => ret a | _ => lift (Raises TypeError) end.

Definition ref (v : pyval) : M nat :=
  match v with VRef l => ret l | _ => lift (Raises TypeError) end.

(** The items of [appts] as the tuples that [sorted] compares. *)
Fixpoint tuples (items : list pyval) : outcome (list (Z * Z)) :=
  match items with
  | [] => Returns []
  | VTuple a :: items' => let! l := tuples items' in Returns (a :: l)
  | _ :: _ => Raises TypeError
  end.

(** The inner loop; [open_slots] is the address of the list. *)
Fixpoint subdivide (fuel : nat) (start end_ : datetime) (duration : timedelta)
  (open_slots : nat) : M unit :=
  do! next := lift (dt_add start duration) in
  if next <=? end_
  then match fuel with
       | O => lift Diverges
       | S fuel' =>
           do! cell := new_list [VInstant start; VInstant next] in
           do! _ := append open_slots (VRef cell) in
           subdivide fuel' next end_ duration open_slots
       end
  else ret tt.

Fixpoint fill (fuel : nat) (gs : list (datetime * datetime)) (duration : timedelta)
  (open_slots : nat) : M unit :=
  match gs with
  | [] => ret tt
  | (start, end_) :: gs' =>
      do! _ := subdivide fuel start end_ duration open_slots in
      fill fuel gs' duration open_slots
  end.

(** The last loop; [this] is the address of a list, [rest] the items of
    [open_slots[1:]] still to come. *)
Fixpoint merge (hours : datetime * datetime) (this : nat) (rest : list pyval)
  : M unit :=
  match rest with
  | [] => ret tt
  | v :: rest' =>
      do! slot := ref v in
      do! s0 := bind (getitem slot 0) instant in
      if outside_hours hours s0 then merge hours this rest'
      else
        do! s1 := bind (getitem slot 1) instant in
        if outside_hours hours s1 then merge hours this rest'
        else
          do! t1 := bind (getitem this 1) instant in
          if s0 <=? t1
          then do! _ := setitem this 1 (VInstant s1) in
               merge hours this rest'
          else do! t0 := bind (getitem this 0) instant in
               do! _ := print (RangeLine t0 t1) in
               do! _ := (if negb (day t0 =? day s0)
                         then print (DateLine t0) else ret tt) in
               merge hours slot rest'
  end.

Definition find_open_slots (fuel : nat) (appts : nat)
  (duration : option timedelta) : M unit :=
  do! first := bind (getitem appts 0) tuple in
  let start := fst first in
  do! last := bind (getitem appts (-1)) tuple in
  let end_ := snd last in
  let hours :=
    (datetime_ymdh (year start) (month start) (day start) 9,
     datetime_ymdh (year end_) (month end_) (day end_) 18) in
  let duration :=
    match duration with
    | None => timedelta_minutes 30
    | Some d => d
    end in
  do! items := load appts in
  do! middle := lift (tuples items) in
  let slots := sorted ([(fst hours, fst hours)] ++ middle ++ [(snd hours, snd hours)]) in
  do! open_slots := new_list [] in
  do! _ := fill fuel (gaps slots) duration open_slots in
  do! this := bind (getitem open_slots 0) ref in
  do! t0 := bind (getitem this 0) instant in
  do! _ := print (DateLine t0) in
  do! items := load open_slots in
  merge hours this (skipn 1 items).

End OutlookHeap.

(** * Properties and examples the statements are written with *)

Module ExcelProps.
Import Excel.

(** The 256 characters, to settle facts about single characters by
    evaluation. *)
Definition all_ascii : list ascii := map ascii_of_nat (seq 0 256).

(** Membership in A-Z and in the letters that [col2num] reads. *)
Definition is_upper_letter (c : ascii) : bool := char_in c ascii_uppercase.
Definition is_letter (c : ascii) : bool := char_in c ascii_letters.

(** A column label of the specification: not empty, letters A-Z only. *)
Definition well_formed_label (s : string) : Prop :=
  s <> EmptyString /\
  forallb is_upper_letter (list_ascii_of_string s) = true.

(** The digit a letter stands for, less one: A is 0, Z is 25. *)
Definition letter_value (c : ascii) : Z := ord (upper c) - ord "A".

(** To be checked on all characters: a letter of A-Z is at the index of
    its value in [ascii_uppercase]. *)
Definition upper_letter_ok (c : ascii) : bool :=
  implb (is_upper_letter c)
    (is_letter c && (0 <=? letter_value c) && (letter_value c <? 26) &&
     match String.get (Z.to_nat (letter_value c)) ascii_uppercase with
     | Some c' => Ascii.eqb c' c
     | None => false
     end).

(** To be checked on the indices 0 to 25: the character at index [r] of
    [ascii_uppercase] is a letter of A-Z of value [r]. *)
Definition digit_ok (r : nat) : bool :=
  match String.get r ascii_uppercase with
  | Some c => is_upper_letter c && (letter_value c =? Z.of_nat r)
  | None => false
  end.

(** The loop variable of [num2col]: its next value. *)
Definition num2col_next (num : Z) : Z := fst (divmod (num - 1) 26).

(** The codes of the letters, to be checked on all characters: A-Z are
    65 to 90, a-z are 97 to 122, and a letter and its uppercase have the
    same value. *)
Definition letter_range_ok (c : ascii) : bool :=
  implb (is_letter c)
    ((0 <=? letter_value c) && (letter_value c <? 26) &&
     (if is_upper_letter c
      then (65 <=? ord c) && (ord c <=? 90) && (letter_value c =? ord c - 65)
      else (97 <=? ord c) && (ord c <=? 122) && (letter_value c =? ord c - 97))).

(** The alphabetic characters of a string, in order. *)
Definition letters_of (s : string) : list ascii :=
  List.filter is_letter (list_ascii_of_string s).

(** Two letters that are equal or differ by their case only: an uppercase
    letter and its lowercase are 32 apart. *)
Definition same_letter (c1 c2 : ascii) : Prop :=
  c1 = c2 \/ ord c1 + 32 = ord c2 \/ ord c2 + 32 = ord c1.

End ExcelProps.

Module OutlookProps.
Import Outlook.

(** An appointment of the specification: it does not end before it starts. *)
Definition wf_appt (a : appt) : Prop := fst a <= snd a.

(** The ranges among the printed lines, in the order of printing. *)
Fixpoint ranges_of (lines : list line) : list (datetime * datetime) :=
  match lines with
  | [] => []
  | DateLine _ :: lines' => ranges_of lines'
  | RangeLine s e :: lines' => (s, e) :: ranges_of lines'
  end.

(** Intervals in a row from [lo] on: each starts at or after the end of
    the one before ([lo] for the first) and ends after it starts. *)
Fixpoint ordered (lo : Z) (l : list (datetime * datetime)) : Prop :=
  match l with
  | [] => True
  | x :: l' => lo <= fst x /\ fst x < snd x /\ ordered (snd x) l'
  end.

(** Nondecreasing first components, each against all that follow. *)
Fixpoint starts_sorted (l : list (Z * Z)) : Prop :=
  match l with
  | [] => True
  | a :: l' => Forall (fun b => fst a <= fst b) l' /\ starts_sorted l'
  end.

(** The names of the specification's own errors; the source defines
    neither. *)
Definition EmptyScheduleError : exn := "EmptyScheduleError"%string.
Definition NoFreeTimeError : exn := "NoFreeTimeError"%string.

(** An instant of 2024-03-15. *)
Definition at_ (h mi : Z) : Z := datetime_ymdhm 2024 3 15 h mi.

(** The appointments of the examples of the specification: two in one
    day, one that fills the window, one before the window. *)
Definition two_appts : list (Z * Z) :=
  [(at_ 10 0, at_ 10 30); (at_ 14 0, at_ 15 0)].

Definition full_day : list (Z * Z) := [(at_ 9 0, at_ 18 0)].

Definition early_appt : list (Z * Z) := [(at_ 5 0, at_ 6 0)].

Definition newline : string := String (ascii_of_nat 10) EmptyString.

(** Appointments of two days, the third of which ends before it starts. *)
Definition backwards_appts : list (Z * Z) :=
  [(datetime_ymdhm 2024 3 16 10 0, datetime_ymdhm 2024 3 16 10 30);
   (at_ 8 0, at_ 20 0);
   (at_ 21 0, at_ 17 0);
   (datetime_ymdhm 2024 3 16 11 0, datetime_ymdhm 2024 3 16 12 0)].

End OutlookProps.

Module HeapProps.
Import Outlook OutlookHeap.

(** The list at [l] is a slot [[start, end]]. *)
Definition cell_at (h : gmap nat (list pyval)) (l : nat) (p : Z * Z) : Prop :=
  h !! l = Some [VInstant (fst p); VInstant (snd p)].

(** The state of the loops that fill [open_slots], against the heap [h0]
    that the call started from: the list at [open_slots] refers to
    distinct slots, created since, that hold [slots]; and every object of
    [h0] is as it was. *)
Definition slots_inv (h0 : gmap nat (list pyval)) (open_slots : nat)
  (w : world) (slots : list (Z * Z)) : Prop :=
  exists locs,
    heap w !! open_slots = Some (map VRef locs) /\
    NoDup (open_slots :: locs) /\
    Forall (fun l => h0 !! l = None) (open_slots :: locs) /\
    Forall2 (cell_at (heap w)) locs slots /\
    h0 ⊆ heap w.

(** A run on the heap against an outcome on values: the same outcome; the
    worlds of the runs that return are related by [Q]; the other runs
    leave the objects of [h0] as they were and [out] printed. *)
Definition simulates {A} (h0 : gmap nat (list pyval)) (out : list line)
  (r : outcome unit * world) (o : outcome A) (Q : A -> world -> Prop) : Prop :=
  match o with
  | Returns a => fst r = Returns tt /\ Q a (snd r)
  | Raises e => fst r = Raises e /\ h0 ⊆ heap (snd r) /\ stdout (snd r) = out
  | Diverges => fst r = Diverges /\ h0 ⊆ heap (snd r) /\ stdout (snd r) = out
  end.

(** A world with the list [two_appts] at address 5 and nothing printed. *)
Definition two_appts_world : world :=
  World {[ 5%nat := map VTuple OutlookProps.two_appts ]} [].

End HeapProps.

Module LabelOrder.
Import Excel ExcelProps.

(** The least index with [k] letters, the label of [k] letters A:
    1, 27, 703, ... *)
Fixpoint repunit (k : nat) : Z :=
  match k with
  | O => 0
  | S k' => 26 * repunit k' + 1
  end.

(** The letters of a string in upper case, as a label. *)
Definition normalize (s : string) : string :=
  string_of_list_ascii (map upper (letters_of s)).

(** The order of the dictionary on strings of one length, by the codes
    of the characters. *)
Fixpoint lex_ltb (l1 l2 : list ascii) : bool :=
  match l1, l2 with
  | c1 :: l1', c2 :: l2' =>
      (ord c1 <? ord c2) || ((ord c1 =? ord c2) && lex_ltb l1' l2')
  | [], _ :: _ => true
  | _, [] => false
  end.

(** Shorter first, then by the dictionary. *)
Definition shortlex_ltb (s1 s2 : string) : bool :=
  (String.length s1 <? String.length s2)%nat ||
  ((String.length s1 =? String.length s2)%nat &&
   lex_ltb (list_ascii_of_string s1) (list_ascii_of_string s2)).

(** To be checked on all characters: the upper case of a letter is a
    letter of A-Z of the same value. *)
Definition upper_of_letter_ok (c : ascii) : bool :=
  implb (is_letter c)
    (is_upper_letter (upper c) && (letter_value (upper c) =? letter_value c)).

End LabelOrder.

Module FinderProps.
Import Outlook OutlookProps.

(** The window of a call: 09:00 of the day the first appointment starts
    and 18:00 of the day the last appointment ends, the value of [hours]
    in [find_open_slots]. *)
Definition hours_of (appts : list (Z * Z)) : outcome (Z * Z) :=
  let! first := py_index appts 0 in
  let! last := py_index appts (-1) in
  Returns
    (datetime_ymdh (year (fst first)) (month (fst first)) (day (fst first)) 9,
     datetime_ymdh (year (snd last)) (month (snd last)) (day (snd last)) 18).

(** The duration of a call: 30 minutes for [None]. *)
Definition duration_of (duration : option Z) : Z :=
  match duration with
  | None => timedelta_minutes 30
  | Some d => d
  end.

(** The list [open_slots] of [find_open_slots] when the loops that fill
    it are done. *)
Definition open_slots_of (fuel : nat) (appts : list (Z * Z))
  (duration : option Z) : outcome (list (Z * Z)) :=
  let! hours := hours_of appts in
  fill fuel
    (gaps (sorted ([(fst hours, fst hours)] ++ appts ++ [(snd hours, snd hours)])))
    (duration_of duration) [].

(** [R] between each element of a list and each later one. *)
Fixpoint all_pairs {A} (R : A -> A -> Prop) (l : list A) : Prop :=
  match l with
  | [] => True
  | a :: l' => Forall (R a) l' /\ all_pairs R l'
  end.

(** Two intervals one after the other, in either order. *)
Definition apart (a b : Z * Z) : Prop := snd a <= fst b \/ snd b <= fst a.

(** An instant of the interval from [start] to, and without, [end]. *)
Definition within (t : Z) (r : Z * Z) : Prop := fst r <= t < snd r.

End FinderProps.

Module OutlookHtml.
Import Outlook.

(** *** Dictionaries and the [%] of strings *)

Definition KeyError : exn := "KeyError"%string.

(** [d.setdefault(k, v)], on the dictionary. *)
Definition setdefault (k v : string) (d : gmap string string)
  : gmap string string :=
  match d !! k with
  | Some _ => d
  | None => <[k := v]> d
  end.

(** A format string of [%(key)s] conversions between literal text. *)
Inductive piece : Type :=
| Lit (s : string)
| Key (k : string).

(** [template % d]: a key that [d] does not have raises [KeyError]. *)
Fixpoint format (template : list piece) (d : gmap string string)
  : outcome string :=
  match template with
  | [] => Returns EmptyString
  | Lit s :: template' =>
      let! r := format template' d in Returns (s ++ r)%string
  | Key k :: template' =>
      match d !! k with
      | Some v => let! r := format template' d in Returns (v ++ r)%string
      | None => Raises KeyError
      end
  end.

(** The characters that the literals are written with: the line feed and
    the double quote. *)
Definition nl : string := String (ascii_of_nat 10) EmptyString.
Definition dq : string := String (ascii_of_nat 34) EmptyString.

(** Lines of text, with a line feed between two of them. *)
Definition text (lines : list string) : string := String.concat nl lines.

(** *** [tbl_style] *)

(** The format string of [tbl_style]. *)
Definition style_template : list piece :=
  [Lit (text
     [("<style type=" ++ dq ++ "text/css" ++ dq ++ ">")%string;
      "  table {";
      "    border-collapse:collapse;";
      "    border-spacing:0;";
      "  }";
      "  table td {";
      "    font-family:Arial, sans-serif;";
      "    font-size:14px;";
      "    padding:5px 10px;";
      "    border-style:solid;";
      "    border-width:1px;";
      "    overflow:hidden;";
      "    word-break:normal;";
      "    border-color: "]);
   Key "td-border-color";
   Lit (text
     [";";
      "    text-align: right;";
      "    width: 100px;";
      "  }";
      "  table th {";
      "    font-family:Arial, Helvetica, sans-serif !important;";
      "    font-size:14px;";
      "    font-weight:bold;";
      "    padding:5px 10px;";
      "    border-style:solid;";
      "    border-width:1px;";
      "    overflow:hidden;";
      "    word-break:normal;";
      "    background-color:"]);
   Key "header-bg";
   Lit (text
     [";";
      "    color:"]);
   Key "header-fg";
   Lit (text
     [";";
      "    vertical-align:top;";
      "    border-color: "]);
   Key "th-border-color";
   Lit (text
     [";";
      "    width: 100px;";
      "  }";
      "</style>"])].

(** [tbl_style(styles)]: the text of the style sheet, and the dictionary
    [styles] as the call leaves it. The values are the texts that the
    conversions put for them. *)
Definition tbl_style (styles : gmap string string)
  : outcome string * gmap string string :=
  let styles := setdefault "header-bg" "#1F77B4" styles in
  let styles := setdefault "header-fg" "#FFFFFF" styles in
  let styles := setdefault "th-border-color" "#222222" styles in
  let styles := setdefault "td-border-color" "#222222" styles in
  (format style_template styles, styles).

(** *** [list_to_tbl] *)

(** The lambda [rowg]; a cell is the text that the f-string puts for it. *)
Definition rowg (row : list string) (mk : string) : string :=
  ("<tr>" ++ nl ++
   String.concat nl (map (fun c => "<" ++ mk ++ ">" ++ c ++ "</" ++ mk ++ ">") row) ++
   nl ++ "</tr>")%string.

(** [list_to_tbl(lst, first_is_hdr)]. The call [self.tbl_style()] is on
    the dictionary of the default argument, one object for all calls:
    [default_styles] is its state before the call, and the second
    component its state after. *)
Definition list_to_tbl (lst : list (list string)) (first_is_hdr : bool)
  (default_styles : gmap string string)
  : outcome string * gmap string string :=
  let head := ("<table class=" ++ dq ++ "tg" ++ dq ++ ">" ++ nl)%string in
  match py_index lst 0 with
  | Returns first =>
      let row1 := (rowg first "th" ++ nl)%string in
      let rows :=
        (row1 ++ String.concat nl (map (fun r => rowg r "td") (skipn 1 lst)))%string in
      let foot := (nl ++ "</table>")%string in
      let '(style, default_styles') := tbl_style default_styles in
      (let! style := style in Returns (style ++ head ++ rows ++ foot)%string,
       default_styles')
  | Raises e => (Raises e, default_styles)
  | Diverges => (Diverges, default_styles)
  end.

(** The four entries that [tbl_style] sets when they are missing. *)
Definition style_defaults : gmap string string :=
  <["header-bg" := "#1F77B4"]>
    (<["header-fg" := "#FFFFFF"]>
       (<["th-border-color" := "#222222"]>
          (<["td-border-color" := "#222222"]> ∅))).

End OutlookHtml.

Module ExcelApp.

(** ** excel.py: the class [Excel] *)

Definition SystemExit : exn := "SystemExit"%string.

(** What is given for [path]: a [pathlib.Path], with its [name] and its
    [str()], or a value that has no attribute [name]. *)
Inductive path_arg : Type :=
| PathObj (name full : string)
| NoName.

(** [self.wbs[k] = v] on a dictionary from names to flags, in the order
    of insertion: the value of a key that is there is replaced where it
    is, a new key comes last. *)
Fixpoint dict_set (d : list (string * bool)) (k : string) (v : bool)
  : list (string * bool) :=
  match d with
  | [] => [(k, v)]
  | (k', v') :: d' =>
      if String.eqb k' k then (k', v) :: d' else (k', v') :: dict_set d' k v
  end.

Section App.

(** The application behind COM is not part of the source. It is taken
    as given: the states of the application, the workbook objects,
    [app.Workbooks(name)], [app.Workbooks.Open(path)], [wb.Name] and
    [wb.Close()]. *)
Variable app : Type.
Variable workbook : Type.
Variable Item : app -> string -> outcome workbook.
Variable Open : app -> string -> outcome workbook * app.
Variable Name : workbook -> string.
Variable Close : app -> workbook -> outcome unit * app.

(** [Excel.Workbooks(self, path)], on the state of the application and
    the dictionary [self.wbs]. [sys.exit(1)] raises [SystemExit];
    [except Exception] takes every error of [self.app.Workbooks(...)]. *)
Definition Workbooks (a : app) (wbs : list (string * bool)) (path : path_arg)
  : outcome workbook * (app * list (string * bool)) :=
  match path with
  | NoName => (Raises SystemExit, (a, wbs))
  | PathObj name full =>
      match Item a name with
      | Returns wb => (Returns wb, (a, dict_set wbs (Name wb) false))
      | Raises _ =>
          match Open a full with
          | (Returns wb, a') => (Returns wb, (a', dict_set wbs (Name wb) true))
          | (Raises e, a') => (Raises e, (a', wbs))
          | (Diverges, a') => (Diverges, (a', wbs))
          end
      | Diverges => (Diverges, (a, wbs))
      end
  end.

(** [Excel.__del__(self)]: the loop over [self.wbs.items()]. *)
Fixpoint del (a : app) (wbs : list (string * bool)) : outcome unit * app :=
  match wbs with
  | [] => (Returns tt, a)
  | (wbname, should_close) :: wbs' =>
      if should_close
      then match Item a wbname with
           | Returns wb =>
               match Close a wb with
               | (Returns _, a') => del a' wbs'
               | (Raises e, a') => (Raises e, a')
               | (Diverges, a') => (Diverges, a')
               end
           | Raises e => (Raises e, a)
           | Diverges => (Diverges, a)
           end
      else del a wbs'
  end.

End App.

(** An application for examples: its state is the list of the names of
    the open workbooks, a workbook is its name, and a file is opened
    under the name that is its path. *)
Definition names_Item (a : list string) (name : string) : outcome string :=
  if existsb (String.eqb name) a then Returns name else Raises "com_error"%string.

Definition names_Open (a : list string) (full : string)
  : outcome string * list string :=
  (Returns full, full :: a).

Definition names_Close (a : list string) (wb : string)
  : outcome unit * list string :=
  (Returns tt, List.filter (fun n => negb (String.eqb n wb)) a).

End ExcelApp.

(** * Lemmas and theorems *)

(** ** Facts about the codec *)

Module ExcelFacts.
Import Excel ExcelProps.

Lemma all_ascii_complete (c : ascii) : In c all_ascii.
Proof.
  unfold all_ascii. rewrite <- (ascii_nat_embedding c).
  apply in_map, in_seq. pose proof (nat_ascii_bounded c). lia.
Qed.

Lemma ascii_forallb (P : ascii -> bool) :
  forallb P all_ascii = true -> forall c, P c = true.
Proof.
  intros H c. rewrite forallb_forall in H. apply H, all_ascii_complete.
Qed.

Lemma upper_letter_spec (c : ascii) :
  is_upper_letter c = true ->
  is_letter c = true /\ 0 <= letter_value c < 26 /\
  String.get (Z.to_nat (letter_value c)) ascii_uppercase = Some c.
Proof.
  intros Hc.
  assert (H : upper_letter_ok c = true)
    by (revert c Hc; intros c _; apply ascii_forallb; vm_compute; reflexivity).
  unfold upper_letter_ok in H. rewrite Hc in H. cbn [implb] in H.
  destruct (String.get _ _) as [c'|] eqn:E.
  - apply andb_prop in H as [H H4]. apply andb_prop in H as [H H3].
    apply andb_prop in H as [H1 H2].
    apply Ascii.eqb_eq in H4. subst c'. repeat split; auto; lia.
  - rewrite andb_false_r in H. discriminate.
Qed.

Lemma digit_spec (r : Z) :
  0 <= r < 26 ->
  exists c, String.get (Z.to_nat r) ascii_uppercase = Some c /\
            is_upper_letter c = true /\ letter_value c = r.
Proof.
  intros Hr.
  assert (H : forallb digit_ok (seq 0 26) = true) by (vm_compute; reflexivity).
  rewrite forallb_forall in H.
  specialize (H (Z.to_nat r)). unfold digit_ok in H.
  destruct (String.get _ _) as [c|] eqn:E.
  - exists c. assert (In (Z.to_nat r) (seq 0 26)) as Hin by (apply in_seq; lia).
    apply H in Hin. apply andb_prop in Hin as [H1 H2].
    apply Z.eqb_eq in H2. repeat split; auto. lia.
  - assert (In (Z.to_nat r) (seq 0 26)) as Hin by (apply in_seq; lia).
    apply H in Hin. discriminate.
Qed.

Lemma col2num_step_letter (num : Z) (c : ascii) :
  is_letter c = true -> col2num_step num c = num * 26 + letter_value c + 1.
Proof.
  intros H. unfold col2num_step, letter_value. fold (is_letter c).
  rewrite H. lia.
Qed.

Lemma col2num_step_other (num : Z) (c : ascii) :
  is_letter c = false -> col2num_step num c = num.
Proof. intros H. unfold col2num_step. fold (is_letter c). now rewrite H. Qed.

(** One execution of the body of the loop of [num2col] undoes one round
    of [col2num]. *)
Lemma num2col_body (num : Z) :
  exists c, String.get (Z.to_nat ((num - 1) mod 26)) ascii_uppercase = Some c /\
            is_upper_letter c = true /\
            col2num_step ((num - 1) / 26) c = num.
Proof.
  assert (Hr : 0 <= (num - 1) mod 26 < 26) by (apply Z.mod_pos_bound; lia).
  destruct (digit_spec _ Hr) as (c & Hget & Hup & Hval).
  exists c. repeat split; auto.
  rewrite col2num_step_letter by (apply upper_letter_spec; exact Hup).
  rewrite Hval. pose proof (Z.div_mod (num - 1) 26). lia.
Qed.

Lemma num2col_loop_unfold (fuel : nat) (num : Z) (result : list ascii) :
  num <> 0 ->
  num2col_loop (S fuel) num result =
  match String.get (Z.to_nat ((num - 1) mod 26)) ascii_uppercase with
  | Some c => num2col_loop fuel ((num - 1) / 26) (c :: result)
  | None => Raises IndexError
  end.
Proof.
  intros H. simpl. apply Z.eqb_neq in H. now rewrite H.
Qed.

(** What the loop returns decodes to the number it started from. *)
Lemma num2col_loop_decodes (fuel : nat) :
  forall num result result',
    num2col_loop fuel num result = Returns result' ->
    fold_left col2num_step result' 0 = fold_left col2num_step result num.
Proof.
  induction fuel as [|fuel IH]; intros num result result' H.
  - simpl in H. destruct (num =? 0) eqn:E; [|discriminate].
    apply Z.eqb_eq in E. now inversion H; subst.
  - destruct (Z.eq_dec num 0) as [->|Hnz].
    + simpl in H. now inversion H; subst.
    + rewrite num2col_loop_unfold in H by assumption.
      destruct (num2col_body num) as (c & Hget & _ & Hstep).
      rewrite Hget in H. apply IH in H. rewrite H. simpl. now rewrite Hstep.
Qed.

(** The letters the loop puts in front of [result] are all in A-Z. *)
Lemma num2col_loop_prefix (fuel : nat) :
  forall num result result',
    num2col_loop fuel num result = Returns result' ->
    exists l, result' = l ++ result /\ forallb is_upper_letter l = true /\
              (num <> 0 -> l <> []).
Proof.
  induction fuel as [|fuel IH]; intros num result result' H.
  - simpl in H. destruct (num =? 0) eqn:E; [|discriminate].
    apply Z.eqb_eq in E. inversion H; subst. exists []. now repeat split.
  - destruct (Z.eq_dec num 0) as [->|Hnz].
    + simpl in H. inversion H; subst. exists []. now repeat split.
    + rewrite num2col_loop_unfold in H by assumption.
      destruct (num2col_body num) as (c & Hget & Hup & _).
      rewrite Hget in H. apply IH in H as (l & -> & Hl & _).
      exists (l ++ [c]). rewrite <- app_assoc. repeat split; auto.
      * rewrite forallb_app, Hl. simpl. now rewrite Hup.
      * intros _ E. now apply app_eq_nil in E as [_ E].
Qed.

Lemma num2col_next_decreases (num : Z) :
  1 <= num -> 0 <= num2col_next num < num.
Proof.
  intros H. unfold num2col_next, divmod. simpl. split.
  - apply Z.div_pos; lia.
  - apply Z.div_lt_upper_bound; lia.
Qed.

(** From a number that is not negative the loop returns, given fuel for
    as many rounds as the number is large. *)
Lemma num2col_loop_returns (fuel : nat) :
  forall num result,
    0 <= num -> (Z.to_nat num <= fuel)%nat ->
    exists result', num2col_loop fuel num result = Returns result'.
Proof.
  induction fuel as [|fuel IH]; intros num result Hnum Hfuel.
  - assert (num = 0) as -> by lia. simpl. eauto.
  - destruct (Z.eq_dec num 0) as [->|Hnz]; [simpl; eauto|].
    rewrite num2col_loop_unfold by assumption.
    destruct (num2col_body num) as (c & Hget & _ & _). rewrite Hget.
    pose proof (num2col_next_decreases num ltac:(lia)) as Hd.
    unfold num2col_next, divmod in Hd. simpl in Hd.
    apply IH; lia.
Qed.

(** More fuel does not change what the loop returns. *)
Lemma num2col_loop_fuel_mono (fuel : nat) :
  forall fuel' num result result',
    num2col_loop fuel num result = Returns result' ->
    (fuel <= fuel')%nat ->
    num2col_loop fuel' num result = Returns result'.
Proof.
  induction fuel as [|fuel IH]; intros fuel' num result result' H Hle.
  - simpl in H. destruct (num =? 0) eqn:E; [|discriminate].
    destruct fuel'; simpl; now rewrite E.
  - destruct fuel' as [|fuel']; [lia|].
    destruct (Z.eq_dec num 0) as [->|Hnz]; [exact H|].
    rewrite num2col_loop_unfold in * by assumption.
    destruct (String.get _ _); [|discriminate].
    apply IH; [assumption | lia].
Qed.

(** From a negative number the loop never leaves: whatever the fuel, it
    is spent. *)
Lemma num2col_loop_negative (fuel : nat) :
  forall num result, num < 0 -> num2col_loop fuel num result = Diverges.
Proof.
  induction fuel as [|fuel IH]; intros num result Hneg.
  - simpl. destruct (num =? 0) eqn:E; [apply Z.eqb_eq in E; lia | reflexivity].
  - rewrite num2col_loop_unfold by lia.
    destruct (num2col_body num) as (c & Hget & _ & _). rewrite Hget.
    apply IH. apply Z.div_lt_upper_bound; lia.
Qed.

Lemma letter_range_spec (c : ascii) :
  is_letter c = true ->
  0 <= letter_value c < 26 /\
  (65 <= ord c <= 90 /\ letter_value c = ord c - 65 \/
   97 <= ord c <= 122 /\ letter_value c = ord c - 97).
Proof.
  intros Hc.
  assert (H : letter_range_ok c = true)
    by (revert c Hc; intros c _; apply ascii_forallb; vm_compute; reflexivity).
  unfold letter_range_ok in H. rewrite Hc in H. cbn [implb] in H.
  apply andb_prop in H as [H H3]. apply andb_prop in H as [H1 H2].
  split; [lia|].
  destruct (is_upper_letter c);
    apply andb_prop in H3 as [H3 H5]; apply andb_prop in H3 as [H3 H4]; lia.
Qed.

Lemma col2num_step_lower_bound (num : Z) (c : ascii) :
  0 <= num -> num <= col2num_step num c.
Proof.
  intros H. destruct (is_letter c) eqn:E.
  - rewrite col2num_step_letter by assumption.
    pose proof (letter_range_spec c E). lia.
  - rewrite col2num_step_other by assumption. lia.
Qed.

Lemma col2num_fold_lower_bound (l : list ascii) :
  forall num, 0 <= num -> num <= fold_left col2num_step l num.
Proof.
  induction l as [|c l IH]; intros num H; simpl; [lia|].
  pose proof (col2num_step_lower_bound num c H).
  specialize (IH (col2num_step num c)). lia.
Qed.

(** Encoding what a list of letters A-Z decodes to gives the list back. *)
Lemma num2col_loop_encodes (l : list ascii) :
  forallb is_upper_letter l = true ->
  forall fuel result,
    (length l <= fuel)%nat ->
    num2col_loop fuel (fold_left col2num_step l 0) result = Returns (l ++ result).
Proof.
  induction l as [|c l IH] using rev_ind; intros Hl fuel result Hfuel.
  - simpl. destruct fuel; reflexivity.
  - rewrite forallb_app in Hl. apply andb_prop in Hl as [Hl Hc].
    simpl in Hc. rewrite andb_true_r in Hc.
    rewrite length_app in Hfuel. simpl in Hfuel.
    destruct fuel as [|fuel]; [lia|].
    rewrite fold_left_app. cbn [fold_left].
    destruct (upper_letter_spec c Hc) as (Hlet & Hrange & Hget).
    rewrite col2num_step_letter by assumption.
    set (v := fold_left col2num_step l 0).
    assert (0 <= v) by (apply (col2num_fold_lower_bound l 0); lia).
    rewrite num2col_loop_unfold by lia.
    replace ((v * 26 + letter_value c + 1 - 1) mod 26) with (letter_value c)
      by (apply Z.mod_unique_pos with (q := v); lia).
    replace ((v * 26 + letter_value c + 1 - 1) / 26) with v
      by (apply Z.div_unique_pos with (r := letter_value c); lia).
    rewrite Hget. subst v. rewrite IH by (auto; lia).
    now rewrite <- app_assoc.
Qed.

Lemma string_length_list (s : string) :
  length (list_ascii_of_string s) = String.length s.
Proof. induction s as [|c s IH]; simpl; congruence. Qed.

Lemma same_letter_value (c1 c2 : ascii) :
  is_letter c1 = true -> is_letter c2 = true -> same_letter c1 c2 ->
  letter_value c1 = letter_value c2.
Proof.
  intros H1 H2 [->|H]; [reflexivity|].
  pose proof (letter_range_spec c1 H1). pose proof (letter_range_spec c2 H2).
  lia.
Qed.

(** [col2num] reads the letters of its argument and nothing else. *)
Lemma col2num_fold_letters (l : list ascii) :
  forall num,
    fold_left col2num_step l num =
    fold_left (fun n c => n * 26 + letter_value c + 1) (List.filter is_letter l) num.
Proof.
  induction l as [|c l IH]; intros num; simpl; [reflexivity|].
  destruct (is_letter c) eqn:E; simpl.
  - rewrite col2num_step_letter by assumption. apply IH.
  - rewrite col2num_step_other by assumption. apply IH.
Qed.

Lemma fold_same_letters (l1 l2 : list ascii) :
  Forall2 same_letter l1 l2 ->
  forallb is_letter l1 = true -> forallb is_letter l2 = true ->
  forall num,
    fold_left (fun n c => n * 26 + letter_value c + 1) l1 num =
    fold_left (fun n c => n * 26 + letter_value c + 1) l2 num.
Proof.
  induction 1 as [|c1 c2 l1 l2 Hc Hl IH]; intros H1 H2 num; [reflexivity|].
  simpl in *. apply andb_prop in H1 as [Hc1 H1]. apply andb_prop in H2 as [Hc2 H2].
  rewrite (same_letter_value c1 c2) by assumption. now apply IH.
Qed.

Lemma filter_all {A} (f : A -> bool) (l : list A) :
  forallb f (List.filter f l) = true.
Proof.
  induction l as [|a l IH]; simpl; [reflexivity|].
  destruct (f a) eqn:E; simpl; [rewrite E|]; exact IH.
Qed.

(** C1: the column codec is a bijection between the integers from 1 on
    and the well-formed labels. For [n >= 1], [num2col] returns with fuel
    for [n] rounds, whatever it returns is a well-formed label that
    [col2num] takes back to [n]; for a well-formed label [s],
    [col2num s >= 1] and [num2col] takes it back to [s]. *)
Theorem C1_codec_roundtrip (n : Z) (s : string)
  (Hn : 1 <= n) (Hs : well_formed_label s) :
  ((forall fuel, (Z.to_nat n <= fuel)%nat ->
      exists label, num2col fuel n = Returns label) /\
   (forall fuel label, num2col fuel n = Returns label ->
      well_formed_label label /\ col2num label = n)) /\
  (1 <= col2num s /\
   forall fuel, (String.length s <= fuel)%nat ->
     num2col fuel (col2num s) = Returns s).
Proof.
  split; [split|split].
  - intros fuel Hfuel. unfold num2col.
    destruct (num2col_loop_returns fuel n [] ltac:(lia) Hfuel) as [r Hr].
    rewrite Hr. simpl. eauto.
  - intros fuel label H. unfold num2col in H.
    destruct (num2col_loop fuel n []) as [r| |] eqn:Hr; simpl in H; try discriminate.
    inversion H; subst label; clear H.
    pose proof (num2col_loop_decodes _ _ _ _ Hr) as Hdec.
    destruct (num2col_loop_prefix _ _ _ _ Hr) as (l & -> & Hl & Hne).
    rewrite app_nil_r in *. unfold well_formed_label, col2num.
    rewrite list_ascii_of_string_of_list_ascii. repeat split; auto.
    destruct l; [exfalso; apply Hne; [lia | reflexivity] | discriminate].
  - destruct Hs as [Hne Hl]. unfold col2num.
    destruct s as [|c s]; [congruence|]. simpl in *.
    apply andb_prop in Hl as [Hc _].
    destruct (upper_letter_spec c Hc) as (Hlet & Hrange & _).
    rewrite col2num_step_letter by assumption.
    pose proof (col2num_fold_lower_bound (list_ascii_of_string s)
                  (0 * 26 + letter_value c + 1)). lia.
  - intros fuel Hfuel. destruct Hs as [_ Hl]. unfold num2col, col2num.
    rewrite num2col_loop_encodes by (auto; rewrite string_length_list; lia).
    simpl. now rewrite app_nil_r, string_of_list_ascii_of_string.
Qed.

Lemma C1_codec_roundtrip_witness :
  num2col 28 28 = Returns "AB"%string /\ col2num "AB" = 28 /\
  num2col 3 (col2num "ZZA") = Returns "ZZA"%string.
Proof.
  assert (Hs : well_formed_label "ZZA")
    by (split; [discriminate | reflexivity]).
  pose proof (C1_codec_roundtrip 28 "ZZA" ltac:(lia) Hs) as [[_ H2] [_ H3]].
  split; [reflexivity|]. split.
  - apply (H2 28%nat "AB"%string). reflexivity.
  - apply H3. simpl. lia.
Defined.

(** C6: [col2num] is case-insensitive and skips what is not a letter: two
    strings whose letters agree up to case decode alike, and a string
    without letters (the empty one too) decodes to 0. [col2num] is a total
    function: nothing is raised. *)
Theorem C6_col2num_reads_letters_only (s1 s2 s0 : string)
  (Hsame : Forall2 same_letter (letters_of s1) (letters_of s2))
  (Hnone : letters_of s0 = []) :
  col2num s1 = col2num s2 /\ col2num s0 = 0.
Proof.
  unfold col2num, letters_of in *. rewrite !col2num_fold_letters. split.
  - apply fold_same_letters; auto using filter_all.
  - rewrite Hnone. reflexivity.
Qed.

Lemma C6_col2num_reads_letters_only_witness :
  (col2num "Ab1" = col2num "ab" /\ col2num "1$ 7" = 0) /\
  (col2num "ab" = col2num "AB" /\ col2num "" = 0).
Proof.
  assert (Haa : same_letter "A" "a") by (right; left; reflexivity).
  assert (Hbb : same_letter "b" "b") by (left; reflexivity).
  assert (HbB : same_letter "b" "B") by (right; right; reflexivity).
  assert (Hab : same_letter "a" "A") by (right; right; reflexivity).
  split.
  - apply (C6_col2num_reads_letters_only "Ab1" "ab" "1$ 7"); [|reflexivity].
    constructor; [exact Haa|]. constructor; [exact Hbb|]. constructor.
  - apply (C6_col2num_reads_letters_only "ab" "AB" ""); [|reflexivity].
    constructor; [exact Hab|]. constructor; [exact HbB|]. constructor.
Defined.

(** C8: [num2col 0] returns the empty label at once: with no fuel at all,
    that is without one execution of the body of the loop, and so with
    any fuel. *)
Theorem C8_num2col_zero :
  num2col 0 0 = Returns ""%string /\
  forall fuel, num2col fuel 0 = Returns ""%string.
Proof.
  split; [reflexivity|]. intros [|fuel]; reflexivity.
Qed.

Lemma iter_next_reaches_zero (k : nat) :
  forall num, 0 <= num -> (Z.to_nat num <= k)%nat ->
    exists j, (j <= k)%nat /\ Nat.iter j num2col_next num = 0.
Proof.
  induction k as [|k IH]; intros num Hnum Hk.
  - exists 0%nat. split; [lia|]. simpl. lia.
  - destruct (Z.eq_dec num 0) as [->|Hnz].
    + exists 0%nat. split; [lia | reflexivity].
    + pose proof (num2col_next_decreases num ltac:(lia)) as Hd.
      destruct (IH (num2col_next num) ltac:(lia) ltac:(lia)) as (j & Hj & Hit).
      exists (S j). split; [lia|]. now rewrite Nat.iter_succ_r.
Qed.

(** C10: for [n >= 1] the loop of [num2col] terminates. Its variable goes
    from [n] to [(n - 1) div 26], which is smaller and not negative; it is
    0 after at most [n] rounds; and [num2col] returns with fuel for [n]
    rounds. From a negative number the variable stays negative and the
    loop spends any fuel. *)
Theorem C10_num2col_terminates (n : Z) (Hn : 1 <= n) :
  0 <= num2col_next n < n /\
  (exists k, (k <= Z.to_nat n)%nat /\ Nat.iter k num2col_next n = 0) /\
  (forall fuel, (Z.to_nat n <= fuel)%nat ->
     exists label, num2col fuel n = Returns label) /\
  (forall m fuel, m < 0 -> num2col_next m < 0 /\ num2col fuel m = Diverges).
Proof.
  split; [now apply num2col_next_decreases|]. split; [|split].
  - apply iter_next_reaches_zero; lia.
  - intros fuel Hfuel. unfold num2col.
    destruct (num2col_loop_returns fuel n [] ltac:(lia) Hfuel) as [r Hr].
    rewrite Hr. simpl. eauto.
  - intros m fuel Hm. split.
    + unfold num2col_next, divmod. simpl. apply Z.div_lt_upper_bound; lia.
    + unfold num2col. now rewrite num2col_loop_negative.
Qed.

Lemma C10_num2col_terminates_witness :
  0 <= num2col_next 703 < 703 /\
  exists label, num2col 703 703 = Returns label.
Proof.
  pose proof (C10_num2col_terminates 703 ltac:(lia)) as (H1 & _ & H3 & _).
  split; [exact H1|]. apply H3. lia.
Defined.

End ExcelFacts.

(** ** Facts about the free-slot finder *)

Module OutlookFacts.
Import Outlook OutlookProps.

Lemma ordered_weaken (l : list (datetime * datetime)) (lo lo' : Z) :
  lo' <= lo -> ordered lo l -> ordered lo' l.
Proof. destruct l as [|x l]; simpl; [auto|]. intros ? (? & ? & ?). repeat split; auto; lia. Qed.

Lemma ordered_app (l1 l2 : list (datetime * datetime)) :
  forall lo mid,
    l1 <> [] -> ordered lo l1 -> Forall (fun x => snd x <= mid) l1 ->
    ordered mid l2 -> ordered lo (l1 ++ l2).
Proof.
  induction l1 as [|x l1 IH]; intros lo mid Hne Hord Hbound H2; [congruence|].
  simpl in *. destruct Hord as (Hlo & Hx & Hord).
  inversion Hbound as [|? ? Hxm Hb]; subst.
  repeat split; auto.
  destruct l1 as [|y l1].
  - simpl. eapply ordered_weaken; eauto.
  - eapply IH; eauto; discriminate.
Qed.

Lemma ordered_start_end (l : list (datetime * datetime)) :
  forall lo, ordered lo l -> Forall (fun r => lo <= fst r /\ fst r < snd r) l.
Proof.
  induction l as [|x l IH]; intros lo H; constructor; simpl in H.
  - lia.
  - destruct H as (H1 & H2 & H3). apply IH in H3.
    eapply List.Forall_impl; [|exact H3]. simpl. intros r. lia.
Qed.

Lemma ordered_pairwise (l : list (datetime * datetime)) :
  forall lo i j ri rj,
    ordered lo l -> (i < j)%nat ->
    nth_error l i = Some ri -> nth_error l j = Some rj ->
    snd ri <= fst rj /\ fst ri <= fst rj.
Proof.
  induction l as [|x l IH]; intros lo i j ri rj Hord Hij Hi Hj.
  - destruct i; discriminate.
  - destruct j as [|j]; [lia|]. simpl in Hj. simpl in Hord.
    destruct Hord as (H1 & H2 & H3).
    destruct i as [|i].
    + simpl in Hi. inversion Hi; subst x.
      apply ordered_start_end in H3. rewrite List.Forall_forall in H3.
      apply nth_error_In in Hj. apply H3 in Hj. clear - Hj H2. lia.
    + simpl in Hi. apply (IH (snd x) i j ri rj H3 ltac:(lia) Hi Hj).
Qed.

(** *** [dt_add] and the inner loop *)

Lemma dt_add_returns (t d t' : Z) : dt_add t d = Returns t' -> t' = t + d.
Proof.
  unfold dt_add. destruct (_ && _); intros H; inversion H; reflexivity.
Qed.

Lemma subdivide_unfold (fuel : nat) (start end_ duration : Z) open_slots :
  subdivide fuel start end_ duration open_slots =
  let! next := dt_add start duration in
  if next <=? end_
  then match fuel with
       | O => Diverges
       | S fuel' =>
           subdivide fuel' next end_ duration (open_slots ++ [(start, next)])
       end
  else Returns open_slots.
Proof. destruct fuel; reflexivity. Qed.

(** With a positive duration the loop appends slots in a row from
    [start] on that end by [end_]. *)
Lemma subdivide_ordered (fuel : nat) :
  forall start end_ duration open_slots result,
    0 < duration ->
    subdivide fuel start end_ duration open_slots = Returns result ->
    exists new, result = open_slots ++ new /\ ordered start new /\
                Forall (fun x => snd x <= end_) new.
Proof.
  induction fuel as [|fuel IH]; intros start end_ duration open_slots result Hd H;
    rewrite subdivide_unfold in H;
    destruct (dt_add start duration) as [next| |] eqn:Hadd; simpl in H;
    try discriminate;
    apply dt_add_returns in Hadd; subst next;
    destruct (start + duration <=? end_) eqn:Hle; try discriminate.
  - inversion H; subst. exists []. rewrite app_nil_r. simpl. auto.
  - apply IH in H as (new & -> & Hord & Hb); [|assumption].
    exists ((start, start + duration) :: new). rewrite <- app_assoc.
    apply Z.leb_le in Hle. simpl. repeat split; auto; try lia.
  - inversion H; subst. exists []. rewrite app_nil_r. simpl. auto.
Qed.

(** With a duration that is not positive the loop returns only when it
    has appended nothing. *)
Lemma subdivide_stuck (fuel : nat) :
  forall start end_ duration open_slots result,
    duration <= 0 -> start + duration <= end_ ->
    subdivide fuel start end_ duration open_slots <> Returns result.
Proof.
  induction fuel as [|fuel IH]; intros start end_ duration open_slots result Hd Hle;
    rewrite subdivide_unfold;
    destruct (dt_add start duration) as [next| |] eqn:Hadd; simpl;
    try discriminate;
    apply dt_add_returns in Hadd; subst next;
    apply Z.leb_le in Hle as Hle'; rewrite Hle'; [discriminate|].
  apply IH; lia.
Qed.

Lemma subdivide_nonpositive (fuel : nat) start end_ duration open_slots result :
  duration <= 0 ->
  subdivide fuel start end_ duration open_slots = Returns result ->
  result = open_slots.
Proof.
  intros Hd H. destruct (Z_le_gt_dec (start + duration) end_) as [Hle|Hgt].
  - exfalso. eapply subdivide_stuck; eauto.
  - rewrite subdivide_unfold in H.
    destruct (dt_add start duration) as [next| |] eqn:Hadd; simpl in H;
      try discriminate.
    apply dt_add_returns in Hadd; subst next.
    assert ((start + duration <=? end_) = false) as E by (apply Z.leb_gt; lia).
    rewrite E in H. now inversion H.
Qed.

(** More fuel does not change an outcome that is not [Diverges]. *)
Lemma subdivide_fuel_mono (fuel : nat) :
  forall fuel' start end_ duration open_slots,
    subdivide fuel start end_ duration open_slots <> Diverges ->
    (fuel <= fuel')%nat ->
    subdivide fuel' start end_ duration open_slots =
    subdivide fuel start end_ duration open_slots.
Proof.
  induction fuel as [|fuel IH]; intros fuel' start end_ duration open_slots H Hle;
    rewrite (subdivide_unfold fuel'); (rewrite subdivide_unfold in H |- *);
    destruct (dt_add start duration) as [next| |]; simpl in *; try reflexivity;
    destruct (next <=? end_); try reflexivity; try congruence.
  destruct fuel' as [|fuel']; [lia|]. apply IH; [assumption | lia].
Qed.

Lemma fill_fuel_mono (gs : list (datetime * datetime)) :
  forall fuel fuel' duration open_slots,
    fill fuel gs duration open_slots <> Diverges ->
    (fuel <= fuel')%nat ->
    fill fuel' gs duration open_slots = fill fuel gs duration open_slots.
Proof.
  induction gs as [|[start end_] gs IH]; intros fuel fuel' duration open_slots H Hle;
    simpl in *; [reflexivity|].
  assert (Hs : subdivide fuel start end_ duration open_slots <> Diverges)
    by (intros E; rewrite E in H; apply H; reflexivity).
  rewrite (subdivide_fuel_mono fuel fuel') by assumption.
  destruct (subdivide fuel start end_ duration open_slots); simpl in *;
    try reflexivity.
  now apply IH.
Qed.

Lemma find_open_slots_fuel_mono (fuel fuel' : nat) appts duration :
  find_open_slots fuel appts duration <> Diverges ->
  (fuel <= fuel')%nat ->
  find_open_slots fuel' appts duration = find_open_slots fuel appts duration.
Proof.
  unfold find_open_slots. intros H Hle.
  destruct (py_index appts 0) as [first| |]; simpl in *; try reflexivity.
  destruct (py_index appts (-1)) as [last| |]; simpl in *; try reflexivity.
  match goal with
  | |- context [fill fuel' ?g ?d ?a] =>
      assert (Hf : fill fuel g d a <> Diverges)
        by (intros E; rewrite E in H; apply H; reflexivity);
      rewrite (fill_fuel_mono g fuel fuel' d a Hf Hle)
  end.
  reflexivity.
Qed.

(** With a positive duration the loops end: fuel for as many rounds as
    the gap is long is enough. *)
Lemma subdivide_terminates (fuel : nat) :
  forall start end_ duration open_slots,
    0 < duration -> (Z.to_nat (end_ - start) <= fuel)%nat ->
    subdivide fuel start end_ duration open_slots <> Diverges.
Proof.
  induction fuel as [|fuel IH]; intros start end_ duration open_slots Hd Hfuel;
    rewrite subdivide_unfold; unfold dt_add;
    destruct (_ && _); simpl; try discriminate;
    destruct (start + duration <=? end_) eqn:Hle; try discriminate;
    apply Z.leb_le in Hle.
  - lia.
  - apply IH; [assumption | lia].
Qed.

Lemma fill_terminates (gs : list (Z * Z)) (duration : Z) :
  0 < duration ->
  exists fuel, forall fuel' open_slots,
    (fuel <= fuel')%nat -> fill fuel' gs duration open_slots <> Diverges.
Proof.
  intros Hd. induction gs as [|[start end_] gs [fuel1 IH]].
  - exists 0%nat. intros fuel' open_slots _. discriminate.
  - exists (Nat.max (Z.to_nat (end_ - start)) fuel1).
    intros fuel' open_slots Hle. simpl.
    pose proof (subdivide_terminates fuel' start end_ duration open_slots Hd
                  ltac:(lia)) as Hs.
    destruct (subdivide fuel' start end_ duration open_slots); simpl;
      try discriminate; [|congruence].
    apply IH. lia.
Qed.

Lemma py_index_settled {A} (l : list A) (i : Z) : py_index l i <> Diverges.
Proof.
  unfold py_index. destruct (_ && _); [|discriminate].
  destruct (nth_error _ _); discriminate.
Qed.

(** [find_open_slots] with a positive duration returns or raises, given
    enough fuel. *)
Lemma find_open_slots_terminates (appts : list (Z * Z)) (duration : option Z) :
  0 < match duration with None => timedelta_minutes 30 | Some d => d end ->
  exists fuel, forall fuel',
    (fuel <= fuel')%nat -> find_open_slots fuel' appts duration <> Diverges.
Proof.
  intros Hd. unfold find_open_slots.
  destruct (py_index appts 0) as [first| |] eqn:E0; cbn [obind];
    [|exists 0%nat; intros; discriminate | now apply py_index_settled in E0].
  destruct (py_index appts (-1)) as [last| |] eqn:E1; cbn [obind];
    [|exists 0%nat; intros; discriminate | now apply py_index_settled in E1].
  match goal with
  | |- context [fill _ ?g ?d _] =>
      destruct (fill_terminates g d Hd) as [fuel Hfuel]
  end.
  exists fuel. intros fuel' Hle.
  match goal with
  | |- context [fill fuel' ?g ?d ?a] =>
      specialize (Hfuel fuel' a Hle); destruct (fill fuel' g d a) as [os| |]
  end; cbn [obind]; try congruence.
  destruct (py_index os 0) eqn:E2; cbn [obind]; try discriminate.
  now apply py_index_settled in E2.
Qed.

(** *** [sorted] *)

Lemma tuple_leb_total (a b : Z * Z) : tuple_leb a b = false -> tuple_leb b a = true.
Proof.
  unfold tuple_leb. intros H.
  apply orb_false_elim in H as [H1 H2]. apply Z.ltb_ge in H1.
  destruct (Z.eq_dec (fst a) (fst b)) as [E|E].
  - rewrite E, Z.eqb_refl in *. simpl in H2. apply Z.leb_gt in H2.
    rewrite Z.ltb_irrefl. simpl. apply Z.leb_le. lia.
  - assert ((fst b <? fst a) = true) as -> by (apply Z.ltb_lt; lia). reflexivity.
Qed.

Lemma tuple_leb_fst (a b : Z * Z) : tuple_leb a b = true -> fst a <= fst b.
Proof.
  unfold tuple_leb. intros H. apply orb_prop in H as [H|H].
  - apply Z.ltb_lt in H. lia.
  - apply andb_prop in H as [H _]. apply Z.eqb_eq in H. lia.
Qed.

Lemma insert_sorted_Forall (P : Z * Z -> Prop) (a : Z * Z) (l : list (Z * Z)) :
  P a -> Forall P l -> Forall P (insert_sorted a l).
Proof.
  intros Ha Hl. induction Hl as [|b l Hb Hl IH]; simpl.
  - constructor; auto.
  - destruct (tuple_leb a b); repeat constructor; auto.
Qed.

Lemma insert_sorted_starts (a : Z * Z) (l : list (Z * Z)) :
  starts_sorted l -> starts_sorted (insert_sorted a l).
Proof.
  induction l as [|b l IH]; simpl; intros H.
  - split; constructor.
  - destruct H as [Hb Hl]. destruct (tuple_leb a b) eqn:E.
    + apply tuple_leb_fst in E. simpl. repeat split; auto.
      constructor; [assumption|].
      eapply List.Forall_impl; [|exact Hb]. simpl. intros c Hc. lia.
    + apply tuple_leb_total, tuple_leb_fst in E. simpl. split; auto.
      apply insert_sorted_Forall; assumption.
Qed.

Lemma sorted_starts (l : list (Z * Z)) : starts_sorted (sorted l).
Proof.
  induction l as [|a l IH]; simpl; [exact I|]. now apply insert_sorted_starts.
Qed.

Lemma sorted_Forall (P : Z * Z -> Prop) (l : list (Z * Z)) :
  Forall P l -> Forall P (sorted l).
Proof.
  induction 1 as [|a l Ha Hl IH]; simpl; [constructor|].
  now apply insert_sorted_Forall.
Qed.

(** *** The loop over the gaps *)

Lemma fill_nonpositive (gs : list (Z * Z)) :
  forall fuel duration open_slots result,
    duration <= 0 ->
    fill fuel gs duration open_slots = Returns result ->
    result = open_slots.
Proof.
  induction gs as [|[start end_] gs IH]; intros fuel duration open_slots result Hd H;
    simpl in H.
  - now inversion H.
  - destruct (subdivide fuel start end_ duration open_slots) as [os| |] eqn:E;
      simpl in H; try discriminate.
    apply subdivide_nonpositive in E; [|assumption]. subst os. eauto.
Qed.

(** Between markers that are sorted by their starts and do not end
    before they start, the slots of all gaps are in a row. *)
Lemma fill_ordered (markers : list (Z * Z)) :
  forall m fuel duration open_slots result,
    0 < duration ->
    starts_sorted (m :: markers) -> Forall wf_appt (m :: markers) ->
    fill fuel (gaps (m :: markers)) duration open_slots = Returns result ->
    exists new, result = open_slots ++ new /\ ordered (fst m) new.
Proof.
  induction markers as [|m' markers IH];
    intros m fuel duration open_slots result Hd Hs Hwf H.
  - simpl in H. inversion H; subst. exists []. now rewrite app_nil_r.
  - cbn [gaps fill] in H.
    destruct (subdivide fuel (snd m) (fst m') duration open_slots) as [os| |] eqn:E;
      simpl in H; try discriminate.
    apply subdivide_ordered in E as (new1 & -> & Hord1 & Hb1); [|assumption].
    destruct Hs as [Hm Hs]. inversion Hm as [|? ? Hmm' _]; subst.
    inversion Hwf as [|? ? Hwm Hwf']; subst.
    apply IH in H as (new2 & -> & Hord2); auto.
    exists (new1 ++ new2). rewrite app_assoc. split; [reflexivity|].
    destruct new1 as [|x new1].
    + simpl. apply ordered_weaken with (lo := fst m'); [simpl in Hmm'; lia | exact Hord2].
    + apply ordered_weaken with (lo := snd m); [exact Hwm|].
      apply ordered_app with (mid := fst m'); [discriminate | assumption..].
Qed.

(** *** The last loop *)

(** From a value of [this] that ends after it starts and slots in a row
    after it, the printed ranges are in a row. *)
Lemma merge_ordered (hours : Z * Z) (rest : list (Z * Z)) :
  forall this,
    fst this < snd this -> ordered (snd this) rest ->
    ordered (fst this) (ranges_of (merge hours this rest)).
Proof.
  induction rest as [|slot rest IH]; intros this Hthis Hord; simpl; [exact I|].
  simpl in Hord. destruct Hord as (H1 & H2 & H3).
  assert (Hskip : ordered (snd this) rest)
    by (eapply ordered_weaken; [|exact H3]; lia).
  destruct (outside_hours hours (fst slot)); [now apply IH|].
  destruct (outside_hours hours (snd slot)); [now apply IH|].
  destruct (fst slot <=? snd this) eqn:E.
  - apply (IH (fst this, snd slot)); simpl; [lia | assumption].
  - apply Z.leb_gt in E. simpl.
    assert (Hrest : ordered (snd this) (ranges_of (merge hours slot rest)))
      by (eapply ordered_weaken; [|apply IH; assumption]; lia).
    destruct (negb _); simpl; repeat split; auto; lia.
Qed.

(** The loop skips a slot that starts or ends at an hour outside of the
    hours of the window: it is not printed and [this] is as before. *)
Lemma merge_skips_outside_hours hours this slot rest :
  outside_hours hours (fst slot) = true \/ outside_hours hours (snd slot) = true ->
  merge hours this (slot :: rest) = merge hours this rest.
Proof.
  intros [H|H]; simpl; rewrite H; [reflexivity|].
  now destruct (outside_hours hours (fst slot)).
Qed.

Lemma py_index_zero {A} (l : list A) (a : A) :
  py_index l 0 = Returns a -> exists l', l = a :: l'.
Proof.
  destruct l as [|b l]; [discriminate|]. unfold py_index.
  replace (0 <? 0) with false by reflexivity.
  destruct (_ && _); [|discriminate]. simpl. intros H; inversion H; eauto.
Qed.

(** What [find_open_slots] prints when it returns: a date header, then
    ranges in a row. *)
Lemma find_open_slots_ordered (fuel : nat) appts duration lines :
  Forall wf_appt appts ->
  find_open_slots fuel appts duration = Returns lines ->
  exists lo, ordered lo (ranges_of lines).
Proof.
  unfold find_open_slots. intros Hwf H.
  destruct (py_index appts 0) as [first| |]; cbn [obind] in H; try discriminate.
  destruct (py_index appts (-1)) as [last| |]; cbn [obind] in H; try discriminate.
  cbn [fst snd app] in H.
  set (h0 := datetime_ymdh (year (fst first)) (month (fst first)) (day (fst first)) 9) in *.
  set (h1 := datetime_ymdh (year (snd last)) (month (snd last)) (day (snd last)) 18) in *.
  set (d := match duration with None => timedelta_minutes 30 | Some d => d end) in *.
  set (slots := sorted ((h0, h0) :: appts ++ [(h1, h1)])) in *.
  destruct (fill fuel (gaps slots) d []) as [open_slots| |] eqn:Hfill;
    cbn [obind] in H; try discriminate.
  destruct (py_index open_slots 0) as [this| |] eqn:Hthis; cbn [obind] in H;
    try discriminate.
  injection H as <-.
  apply py_index_zero in Hthis as [rest ->]. simpl.
  assert (Hord : fst this < snd this /\ ordered (snd this) rest).
  { destruct (Z_le_gt_dec d 0) as [Hd|Hd].
    - apply fill_nonpositive in Hfill; [discriminate | assumption].
    - destruct slots as [|m markers] eqn:Hslots; [discriminate|].
      apply fill_ordered in Hfill as (new & Hnew & Hord); try lia.
      + simpl in Hnew. subst new. simpl in Hord. tauto.
      + rewrite <- Hslots. apply sorted_starts.
      + rewrite <- Hslots. apply sorted_Forall.
        constructor; [unfold wf_appt; simpl; lia|].
        apply Forall_app. split; [assumption|].
        constructor; [unfold wf_appt; simpl; lia | constructor]. }
  exists (fst this). now apply merge_ordered.
Qed.

(** *** The examples of the specification *)

(** C2: for the appointments 10:00-10:30 and 14:00-15:00 of one day and
    the default duration, the call prints the date and the two ranges
    09:00-10:00 and 10:30-14:00, each merged into one line. The third
    range, 15:00-18:00, is merged in [this] when the loop ends and no
    statement prints it. Seven rounds of the inner loop are needed for
    the longest gap; with less fuel the call has not returned. *)
Theorem C2_third_range_not_printed :
  forall fuel,
    find_open_slots fuel two_appts None =
    (if (fuel <? 7)%nat then Diverges
     else Returns [DateLine (at_ 9 0);
                   RangeLine (at_ 9 0) (at_ 10 0);
                   RangeLine (at_ 10 30) (at_ 14 0)]) /\
    map render [DateLine (at_ 9 0);
                RangeLine (at_ 9 0) (at_ 10 0);
                RangeLine (at_ 10 30) (at_ 14 0)] =
    [(newline ++ "2024-03-15")%string;
     "  09:00 AM to 10:00 AM"%string;
     "  10:30 AM to 02:00 PM"%string].
Proof.
  intros fuel. split; [|vm_compute; reflexivity].
  do 7 (destruct fuel as [|fuel]; [vm_compute; reflexivity|]).
  rewrite (find_open_slots_fuel_mono 7); [vm_compute; reflexivity | | lia].
  vm_compute. discriminate.
Qed.

(** C3, as the code has it: with an empty list of appointments the call
    raises [IndexError], at [appts[0]], whatever the fuel and the
    duration. *)
Theorem C3_empty_raises_IndexError :
  forall fuel duration, find_open_slots fuel [] duration = Raises IndexError.
Proof. reflexivity. Qed.

(** C3 as stated does not hold: the error raised on the empty list is
    not [EmptyScheduleError]. *)
Lemma C3_not_EmptyScheduleError :
  find_open_slots 0 [] None <> Raises EmptyScheduleError.
Proof. vm_compute. discriminate. Qed.

(** C4: for one appointment that fills 09:00-18:00 the loops append no
    slot, and the call raises [IndexError] at [open_slots[0]], whatever
    the fuel: it neither returns nor raises [NoFreeTimeError]. *)
Theorem C4_full_day_raises_IndexError :
  forall fuel,
    fill fuel (gaps (sorted ([(at_ 9 0, at_ 9 0)] ++ full_day ++ [(at_ 18 0, at_ 18 0)])))
         (timedelta_minutes 30) [] = Returns [] /\
    find_open_slots fuel full_day None = Raises IndexError /\
    find_open_slots fuel full_day None <> Raises NoFreeTimeError.
Proof.
  intros fuel.
  assert (H : find_open_slots fuel full_day None = Raises IndexError)
    by (destruct fuel; vm_compute; reflexivity).
  split; [destruct fuel; vm_compute; reflexivity|]. split; [exact H|].
  rewrite H. vm_compute. discriminate.
Qed.

(** C5: for one appointment 05:00-06:00 the first slot, 06:00-06:30, is
    printed as a range although it starts and ends at hour 6, before the
    hour 9 of the window: [this] starts as [open_slots[0]] without the
    test of the hours, which the loop applies from the second slot on. *)
Theorem C5_first_slot_not_filtered :
  forall fuel,
    find_open_slots fuel early_appt None =
    (if (fuel <? 18)%nat then Diverges
     else Returns [DateLine (at_ 6 0); RangeLine (at_ 6 0) (at_ 6 30)]) /\
    outside_hours (at_ 9 0, at_ 18 0) (at_ 6 0) = true /\
    outside_hours (at_ 9 0, at_ 18 0) (at_ 6 30) = true /\
    render (RangeLine (at_ 6 0) (at_ 6 30)) = "  06:00 AM to 06:30 AM"%string.
Proof.
  intros fuel. split; [|vm_compute; auto].
  do 18 (destruct fuel as [|fuel]; [vm_compute; reflexivity|]).
  rewrite (find_open_slots_fuel_mono 18); [vm_compute; reflexivity | | lia].
  vm_compute. discriminate.
Qed.

(** C7, as the code has it: for appointments that do not end before they
    start, every range that a returning call has printed ends after it
    starts, and of two printed ranges the later one starts at or after
    the end, and so the start, of the earlier one. (A call that does not
    return has printed nothing.) The code does not test that an
    appointment ends after it starts. *)
Theorem C7_printed_ranges_ordered
  (fuel : nat) (appts : list (Z * Z)) (duration : option Z) (lines : list line)
  (Hwf : Forall wf_appt appts)
  (Hret : find_open_slots fuel appts duration = Returns lines) :
  Forall (fun r => fst r < snd r) (ranges_of lines) /\
  (forall i j ri rj,
      (i < j)%nat ->
      nth_error (ranges_of lines) i = Some ri ->
      nth_error (ranges_of lines) j = Some rj ->
      snd ri <= fst rj /\ fst ri <= fst rj).
Proof.
  destruct (find_open_slots_ordered fuel appts duration lines Hwf Hret) as [lo Hord].
  split.
  - apply ordered_start_end in Hord.
    eapply List.Forall_impl; [|exact Hord]. simpl. intros r Hr. lia.
  - intros i j ri rj Hij Hi Hj. eapply ordered_pairwise; eauto.
Qed.

Lemma C7_printed_ranges_ordered_witness :
  Forall (fun r => fst r < snd r)
    [(at_ 9 0, at_ 10 0); (at_ 10 30, at_ 14 0)] /\
  snd (at_ 9 0, at_ 10 0) <= fst (at_ 10 30, at_ 14 0).
Proof.
  assert (Hwf : Forall wf_appt two_appts)
    by (repeat constructor; vm_compute; discriminate).
  assert (Hret : find_open_slots 7 two_appts None =
                 Returns [DateLine (at_ 9 0);
                          RangeLine (at_ 9 0) (at_ 10 0);
                          RangeLine (at_ 10 30) (at_ 14 0)])
    by (vm_compute; reflexivity).
  destruct (C7_printed_ranges_ordered 7 two_appts None _ Hwf Hret) as [H1 H2].
  split; [exact H1|].
  apply (H2 0%nat 1%nat); [lia | reflexivity | reflexivity].
Defined.

(** C7 as stated, for every input, does not hold: for the appointments
    [backwards_appts], the third of which ends at 17:00 and starts at
    21:00, the call returns and the first range it has printed, from
    20:00 to 18:30, does not end after it starts. *)
Lemma C7_fails_for_backwards_appointment :
  exists lines,
    find_open_slots 32 backwards_appts None = Returns lines /\
    ~ Forall (fun r => fst r < snd r) (ranges_of lines).
Proof.
  eexists. split; [vm_compute; reflexivity|].
  intros H. apply List.Forall_inv in H. vm_compute in H. discriminate.
Qed.

(** The appointments of C7 must be well formed: with one that ends
    before it starts, a printed range can end before it starts. *)
Remark backwards_appointment_backwards_range :
  exists lines,
    find_open_slots 32 backwards_appts None = Returns lines /\
    nth_error (ranges_of lines) 0 = Some (at_ 20 0, at_ 18 30) /\
    at_ 18 30 < at_ 20 0.
Proof. eexists. split; [vm_compute; reflexivity|]. split; reflexivity. Qed.

End OutlookFacts.

(** ** Facts about the free-slot finder on the heap *)

Module HeapFacts.
Import Outlook OutlookHeap HeapProps.

Lemma bind_returns {A B} (m : M A) (k : A -> M B) (w w' : world) (a : A) :
  m w = (Returns a, w') -> bind m k w = k a w'.
Proof. unfold bind. now intros ->. Qed.

Lemma getitem_0 (w : world) (l : nat) (p : Z * Z) :
  cell_at (heap w) l p -> bind (getitem l 0) instant w = (Returns (fst p), w).
Proof.
  unfold cell_at, getitem, bind, load. intros ->. reflexivity.
Qed.

Lemma getitem_1 (w : world) (l : nat) (p : Z * Z) :
  cell_at (heap w) l p -> bind (getitem l 1) instant w = (Returns (snd p), w).
Proof.
  unfold cell_at, getitem, bind, load. intros ->. reflexivity.
Qed.

Lemma setitem_1 (w : world) (l : nat) (p : Z * Z) (t : Z) :
  cell_at (heap w) l p ->
  setitem l 1 (VInstant t) w =
  (Returns tt,
   World (<[l := [VInstant (fst p); VInstant t]]> (heap w)) (stdout w)).
Proof. unfold cell_at, setitem. intros ->. reflexivity. Qed.

Lemma cells_insert (h : gmap nat (list pyval)) (l : nat) (x : list pyval)
  (locs : list nat) (slots : list (Z * Z)) :
  l ∉ locs ->
  Forall2 (cell_at h) locs slots ->
  Forall2 (cell_at (<[l := x]> h)) locs slots.
Proof.
  intros Hl H. induction H as [|l' p locs slots Hc H IH]; constructor.
  - unfold cell_at in *. rewrite lookup_insert_ne; [assumption|].
    intros ->. apply Hl. left.
  - apply IH. intros Hin. apply Hl. now right.
Qed.

(** The loop [merge] on the heap prints what the loop on values prints,
    and writes to [this] and to the slots only. *)
Lemma merge_spec (hours : Z * Z) (h0 : gmap nat (list pyval)) :
  forall (rest_locs : list nat) (rest_slots : list (Z * Z))
         (this : nat) (p : Z * Z) (w : world),
    NoDup (this :: rest_locs) ->
    Forall (fun l => h0 !! l = None) (this :: rest_locs) ->
    cell_at (heap w) this p ->
    Forall2 (cell_at (heap w)) rest_locs rest_slots ->
    h0 ⊆ heap w ->
    exists w',
      OutlookHeap.merge hours this (map VRef rest_locs) w = (Returns tt, w') /\
      stdout w' = stdout w ++ Outlook.merge hours p rest_slots /\
      h0 ⊆ heap w'.
Proof.
  induction rest_locs as [|l locs IH];
    intros rest_slots this p w Hnd Hnew Hthis Hcells Hsub.
  - inversion Hcells; subst. exists w. simpl. rewrite app_nil_r. auto.
  - inversion Hcells as [|? q ? slots Hl Hcells']; subst.
    apply NoDup_cons in Hnd as [Hthis_notin Hnd].
    apply NoDup_cons in Hnd as Hnd'. destruct Hnd' as [Hl_notin Hnd'].
    apply Forall_cons in Hnew as [Hthis_new Hnew].
    assert (Hskip : NoDup (this :: locs)).
    { apply NoDup_cons. split; [|assumption].
      intros Hin. apply Hthis_notin. now right. }
    assert (Hskip_new : Forall (fun l => h0 !! l = None) (this :: locs)).
    { apply Forall_cons in Hnew as [_ Hnew]. apply Forall_cons; auto. }
    cbn [OutlookHeap.merge Outlook.merge map].
    rewrite (bind_returns _ _ w w l) by reflexivity.
    rewrite (bind_returns _ _ w w (fst q)) by (now apply getitem_0).
    destruct (outside_hours hours (fst q)); [now apply IH|].
    rewrite (bind_returns _ _ w w (snd q)) by (now apply getitem_1).
    destruct (outside_hours hours (snd q)); [now apply IH|].
    rewrite (bind_returns _ _ w w (snd p)) by (now apply getitem_1).
    destruct (fst q <=? snd p).
    + set (w1 := World (<[this := [VInstant (fst p); VInstant (snd q)]]> (heap w))
                       (stdout w)).
      rewrite (bind_returns _ _ w w1 tt) by (now apply setitem_1).
      apply (IH slots this (fst p, snd q) w1); auto.
      * unfold cell_at. simpl. apply lookup_insert_eq.
      * simpl. apply cells_insert; [|assumption].
        intros Hin. apply Hthis_notin. now right.
      * simpl. now apply insert_subseteq_r.
    + rewrite (bind_returns _ _ w w (fst p)) by (now apply getitem_0).
      set (w1 := World (heap w) (stdout w ++ [RangeLine (fst p) (snd p)])).
      rewrite (bind_returns _ _ w w1 tt) by reflexivity.
      destruct (negb (day (fst p) =? day (fst q))).
      * set (w2 := World (heap w) (stdout w1 ++ [DateLine (fst p)])).
        rewrite (bind_returns _ _ w1 w2 tt) by reflexivity.
        destruct (IH slots l q w2) as (w' & Hrun & Hout & Hsub'); auto.
        exists w'. split; [assumption|]. split; [|assumption].
        rewrite Hout. simpl. rewrite <- !app_assoc. reflexivity.
      * rewrite (bind_returns _ _ w1 w1 tt) by reflexivity.
        destruct (IH slots l q w1) as (w' & Hrun & Hout & Hsub'); auto.
        exists w'. split; [assumption|]. split; [|assumption].
        rewrite Hout. simpl. rewrite <- !app_assoc. reflexivity.
Qed.

Lemma simulates_impl {A} h0 out r (o : outcome A) (Q Q' : A -> world -> Prop) :
  (forall a w, Q a w -> Q' a w) -> simulates h0 out r o Q -> simulates h0 out r o Q'.
Proof. destruct o; simpl; intuition. Qed.

Lemma cells_allocated (h : gmap nat (list pyval)) (locs : list nat)
  (slots : list (Z * Z)) (l : nat) :
  Forall2 (cell_at h) locs slots -> l ∈ locs -> is_Some (h !! l).
Proof.
  induction 1 as [|l' p locs slots Hc H IH]; intros Hin.
  - inversion Hin.
  - inversion Hin; subst; [unfold cell_at in Hc; eauto | auto].
Qed.

Lemma heap_subdivide_unfold (fuel : nat) (start end_ duration : Z) (open_slots : nat) :
  OutlookHeap.subdivide fuel start end_ duration open_slots =
  do! next := lift (dt_add start duration) in
  if next <=? end_
  then match fuel with
       | O => lift Diverges
       | S fuel' =>
           do! cell := new_list [VInstant start; VInstant next] in
           do! _ := append open_slots (VRef cell) in
           OutlookHeap.subdivide fuel' next end_ duration open_slots
       end
  else ret tt.
Proof. destruct fuel; reflexivity. Qed.

(** One round of the inner loop keeps [slots_inv]. *)
Lemma slots_inv_append h0 open_slots (w : world) (slots : list (Z * Z)) (p : Z * Z) :
  slots_inv h0 open_slots w slots ->
  exists w',
    (do! cell := new_list [VInstant (fst p); VInstant (snd p)] in
     append open_slots (VRef cell)) w = (Returns tt, w') /\
    stdout w' = stdout w /\
    slots_inv h0 open_slots w' (slots ++ [p]).
Proof.
  intros (locs & Hos & Hnd & Hnew & Hcells & Hsub).
  set (l := fresh (dom (heap w))).
  assert (Hl : heap w !! l = None)
    by (apply not_elem_of_dom; apply is_fresh).
  assert (Hlos : l <> open_slots) by (intros E; rewrite E, Hos in Hl; discriminate).
  assert (Hlocs : l ∉ locs).
  { intros Hin. destruct (cells_allocated _ _ _ _ Hcells Hin) as [x Hx].
    rewrite Hx in Hl. discriminate. }
  apply NoDup_cons in Hnd as [Hos_notin Hnd].
  apply Forall_cons in Hnew as [Hos_new Hnew].
  set (cell := [VInstant (fst p); VInstant (snd p)]).
  set (w1 := World (<[l := cell]> (heap w)) (stdout w)).
  set (w2 := World (<[open_slots := map VRef locs ++ [VRef l]]> (heap w1)) (stdout w)).
  exists w2. split; [|split; [reflexivity|]].
  - rewrite (bind_returns _ _ w w1 l) by reflexivity.
    unfold append. simpl. rewrite lookup_insert_ne by assumption.
    rewrite Hos. reflexivity.
  - exists (locs ++ [l]). simpl. repeat split.
    + rewrite lookup_insert_eq, map_app. reflexivity.
    + apply NoDup_cons. split.
      * rewrite elem_of_app, list_elem_of_singleton. intros [?|?]; auto.
      * apply NoDup_app. repeat split; auto.
        -- intros x Hx Hin. apply list_elem_of_singleton in Hin. subst x. auto.
        -- apply NoDup_singleton.
    + apply Forall_cons. split; [assumption|].
      apply Forall_app. split; [assumption|].
      apply Forall_singleton. eapply lookup_weaken_None; eauto.
    + apply Forall2_app.
      * apply cells_insert; [assumption|]. apply cells_insert; assumption.
      * constructor; [|constructor]. unfold cell_at.
        rewrite lookup_insert_ne by auto. apply lookup_insert_eq.
    + apply insert_subseteq_r; [assumption|].
      apply insert_subseteq_r; [|assumption]. eapply lookup_weaken_None; eauto.
Qed.

(** The inner loop on the heap does what the loop on values does. *)
Lemma subdivide_spec h0 (open_slots : nat) (fuel : nat) :
  forall (start end_ duration : Z) (slots : list (Z * Z)) (w : world),
    slots_inv h0 open_slots w slots ->
    simulates h0 (stdout w)
      (OutlookHeap.subdivide fuel start end_ duration open_slots w)
      (Outlook.subdivide fuel start end_ duration slots)
      (fun slots' w' => slots_inv h0 open_slots w' slots' /\ stdout w' = stdout w).
Proof.
  induction fuel as [|fuel IH]; intros start end_ duration slots w Hinv;
    rewrite heap_subdivide_unfold, OutlookFacts.subdivide_unfold;
    assert (Hsub : h0 ⊆ heap w) by (destruct Hinv as (? & ? & ? & ? & ? & ?); assumption);
    unfold bind at 1, lift at 1;
    destruct (dt_add start duration) as [next| |]; simpl; auto;
    destruct (next <=? end_); simpl; auto.
  destruct (slots_inv_append h0 open_slots w slots (start, next) Hinv)
    as (w' & Hrun & Hout & Hinv').
  unfold bind at 1 in Hrun. unfold bind at 1.
  simpl in Hrun. simpl.
  unfold bind at 1. rewrite Hrun.
  specialize (IH next end_ duration _ w' Hinv').
  rewrite Hout in IH.
  eapply simulates_impl; [|exact IH]. simpl. intros a w'' [? ?]. split; congruence.
Qed.

Lemma fill_spec h0 (open_slots : nat) (fuel : nat) (duration : Z)
  (gs : list (Z * Z)) :
  forall (slots : list (Z * Z)) (w : world),
    slots_inv h0 open_slots w slots ->
    simulates h0 (stdout w)
      (OutlookHeap.fill fuel gs duration open_slots w)
      (Outlook.fill fuel gs duration slots)
      (fun slots' w' => slots_inv h0 open_slots w' slots' /\ stdout w' = stdout w).
Proof.
  induction gs as [|[start end_] gs IH]; intros slots w Hinv; simpl.
  - auto.
  - pose proof (subdivide_spec h0 open_slots fuel start end_ duration slots w Hinv) as Hs.
    unfold bind at 1.
    destruct (Outlook.subdivide fuel start end_ duration slots) as [slots'| |];
      simpl in *;
      destruct (OutlookHeap.subdivide fuel start end_ duration open_slots w) as [o w'];
      simpl in *.
    + destruct Hs as (-> & Hinv' & Hout). specialize (IH slots' w' Hinv').
      rewrite Hout in IH. eapply simulates_impl; [|exact IH].
      simpl. intros a w'' [? ?]. split; congruence.
    + destruct Hs as (-> & ? & ?). auto.
    + destruct Hs as (-> & ? & ?). auto.
Qed.

Lemma py_index_map {A B} (f : A -> B) (l : list A) (i : Z) :
  py_index (map f l) i =
  match py_index l i with
  | Returns a => Returns (f a)
  | Raises e => Raises e
  | Diverges => Diverges
  end.
Proof.
  unfold py_index. rewrite length_map. destruct (_ && _); [|reflexivity].
  rewrite nth_error_map. destruct (nth_error l _); reflexivity.
Qed.

Lemma py_index_cons_0 {A} (a : A) (l : list A) : py_index (a :: l) 0 = Returns a.
Proof.
  unfold py_index. replace (0 <? 0) with false by reflexivity.
  replace ((0 <=? 0) && (0 <? Z.of_nat (length (a :: l)))) with true; [reflexivity|].
  symmetry. apply andb_true_intro. split; [reflexivity|].
  apply Z.ltb_lt. simpl length. lia.
Qed.

Lemma getitem_tuple (w : world) (a : nat) (appts : list (Z * Z)) (i : Z) :
  heap w !! a = Some (map VTuple appts) ->
  bind (getitem a i) tuple w = (py_index appts i, w).
Proof.
  intros Ha. unfold getitem, bind, load. rewrite Ha. unfold lift.
  rewrite py_index_map. destruct (py_index appts i); reflexivity.
Qed.

Lemma getitem_ref (w : world) (a : nat) (locs : list nat) (i : Z) :
  heap w !! a = Some (map VRef locs) ->
  bind (getitem a i) ref w = (py_index locs i, w).
Proof.
  intros Ha. unfold getitem, bind, load. rewrite Ha. unfold lift.
  rewrite py_index_map. destruct (py_index locs i); reflexivity.
Qed.

Lemma tuples_map (appts : list (Z * Z)) : tuples (map VTuple appts) = Returns appts.
Proof. induction appts as [|a l IH]; simpl; [reflexivity|]. now rewrite IH. Qed.

(** [find_open_slots] on the heap against [find_open_slots] on values:
    the same outcome and the same lines printed, and every object that
    was on the heap before the call is as it was. *)
Lemma find_open_slots_spec (fuel : nat) (a : nat) (duration : option Z)
  (appts : list (Z * Z)) (w : world) :
  heap w !! a = Some (map VTuple appts) ->
  simulates (heap w) (stdout w)
    (OutlookHeap.find_open_slots fuel a duration w)
    (Outlook.find_open_slots fuel appts duration)
    (fun lines w' => heap w ⊆ heap w' /\ stdout w' = stdout w ++ lines).
Proof.
  intros Ha. unfold OutlookHeap.find_open_slots, Outlook.find_open_slots.
  unfold bind at 1. rewrite (getitem_tuple w a appts) by assumption.
  destruct (py_index appts 0) as [first| |]; cbn [obind simulates fst snd]; auto.
  unfold bind at 1. rewrite (getitem_tuple w a appts) by assumption.
  destruct (py_index appts (-1)) as [last| |]; cbn [obind simulates fst snd]; auto.
  set (h0 := datetime_ymdh (year (fst first)) (month (fst first)) (day (fst first)) 9).
  set (h1 := datetime_ymdh (year (snd last)) (month (snd last)) (day (snd last)) 18).
  set (d := match duration with None => timedelta_minutes 30 | Some d => d end).
  unfold bind at 1, load at 1. rewrite Ha.
  unfold bind at 1, lift at 1. rewrite tuples_map.
  set (slots := sorted ([(h0, h0)] ++ appts ++ [(h1, h1)])).
  set (os := fresh (dom (heap w))).
  assert (Hos : heap w !! os = None) by (apply not_elem_of_dom; apply is_fresh).
  set (w1 := World (<[os := []]> (heap w)) (stdout w)).
  rewrite (bind_returns _ _ w w1 os) by reflexivity.
  assert (Hinv : slots_inv (heap w) os w1 []).
  { exists []. simpl. repeat split.
    - apply lookup_insert_eq.
    - apply NoDup_singleton.
    - apply Forall_singleton. assumption.
    - constructor.
    - now apply insert_subseteq. }
  pose proof (fill_spec (heap w) os fuel d (gaps slots) [] w1 Hinv) as Hfill.
  unfold bind at 1.
  destruct (Outlook.fill fuel (gaps slots) d []) as [open_slots| |];
    cbn [obind simulates] in *;
    destruct (OutlookHeap.fill fuel (gaps slots) d os w1) as [o w2];
    cbn [fst snd] in *;
    [|destruct Hfill as (-> & ? & ?); auto..].
  destruct Hfill as (-> & (locs & Hlocs & Hnd & Hnew & Hcells & Hsub) & Hout).
  apply NoDup_cons in Hnd as [_ Hnd]. apply Forall_cons in Hnew as [_ Hnew].
  unfold bind at 1. rewrite (getitem_ref w2 os locs) by assumption.
  destruct Hcells as [|this p rest_locs rest_slots Hthis Hcells].
  - simpl. auto.
  - rewrite !py_index_cons_0. cbn [obind simulates].
    rewrite (bind_returns _ _ w2 w2 (fst p)) by (now apply getitem_0).
    set (w3 := World (heap w2) (stdout w2 ++ [DateLine (fst p)])).
    rewrite (bind_returns _ _ w2 w3 tt) by reflexivity.
    destruct (merge_spec (h0, h1) (heap w) rest_locs rest_slots this p w3)
      as (w' & Hrun & Hout' & Hsub'); auto.
    assert (Hrest : (do! items := load os in
                     OutlookHeap.merge (h0, h1) this (skipn 1 items)) w3 =
                    (Returns tt, w')).
    { unfold bind, load. simpl heap. rewrite Hlocs. exact Hrun. }
    rewrite Hrest. cbn [fst snd]. repeat split; auto.
    rewrite Hout'. simpl. rewrite Hout. simpl. now rewrite <- app_assoc.
Qed.

(** C9: the call leaves the caller's list of appointments as it was: the
    same tuples in the same order at the same address, whatever the list
    (empty or not), the duration and the fuel, and whether the call
    returns, raises or is still running; so is every other object that
    was on the heap before the call. *)
Theorem C9_appts_unchanged (fuel : nat) (a : nat) (duration : option Z)
  (appts : list (Z * Z)) (w : world)
  (Ha : heap w !! a = Some (map VTuple appts)) :
  heap (snd (OutlookHeap.find_open_slots fuel a duration w)) !! a =
    Some (map VTuple appts) /\
  heap w ⊆ heap (snd (OutlookHeap.find_open_slots fuel a duration w)).
Proof.
  pose proof (find_open_slots_spec fuel a duration appts w Ha) as H.
  assert (Hsub : heap w ⊆ heap (snd (OutlookHeap.find_open_slots fuel a duration w)))
    by (destruct (Outlook.find_open_slots fuel appts duration); simpl in H; tauto).
  split; [|exact Hsub]. eapply lookup_weaken; eauto.
Qed.

Lemma C9_appts_unchanged_witness :
  heap (snd (OutlookHeap.find_open_slots 7 5 None two_appts_world)) !! 5%nat =
  Some (map VTuple OutlookProps.two_appts).
Proof.
  apply (C9_appts_unchanged 7 5 None OutlookProps.two_appts two_appts_world).
  reflexivity.
Defined.

(** The call of the witness returns, has printed the lines of C2, and has
    left objects of its own on the heap. *)
Remark two_appts_world_run :
  fst (OutlookHeap.find_open_slots 7 5 None two_appts_world) = Returns tt /\
  stdout (snd (OutlookHeap.find_open_slots 7 5 None two_appts_world)) =
    [DateLine (OutlookProps.at_ 9 0);
     RangeLine (OutlookProps.at_ 9 0) (OutlookProps.at_ 10 0);
     RangeLine (OutlookProps.at_ 10 30) (OutlookProps.at_ 14 0)] /\
  size (heap (snd (OutlookHeap.find_open_slots 7 5 None two_appts_world))) = 17%nat.
Proof. vm_compute. auto. Qed.

End HeapFacts.

(** ** More facts about the codec *)

Module LabelOrderFacts.
Import Excel ExcelProps ExcelFacts LabelOrder.

Lemma list_ascii_of_string_app (s1 s2 : string) :
  list_ascii_of_string (s1 ++ s2) =
  list_ascii_of_string s1 ++ list_ascii_of_string s2.
Proof. induction s1 as [|c s1 IH]; simpl; [reflexivity|]. now rewrite IH. Qed.

(** What [col2num] has read so far is shifted by one digit for each
    letter still to come. *)
Lemma col2num_fold_acc (l : list ascii) :
  forall num,
    fold_left col2num_step l num =
    num * 26 ^ Z.of_nat (length (List.filter is_letter l)) +
    fold_left col2num_step l 0.
Proof.
  induction l as [|c l IH]; intros num; simpl; [lia|].
  destruct (is_letter c) eqn:E.
  - rewrite !col2num_step_letter by assumption.
    rewrite (IH (num * 26 + letter_value c + 1)), (IH (0 * 26 + letter_value c + 1)).
    cbn [length]. rewrite Nat2Z.inj_succ, Z.pow_succ_r by lia. ring.
  - rewrite !col2num_step_other by assumption. apply IH.
Qed.

(** X1: [col2num] of two strings in a row: the first is shifted by the
    letters of the second. *)
Theorem col2num_app (s1 s2 : string) :
  col2num (s1 ++ s2) =
  col2num s1 * 26 ^ Z.of_nat (length (letters_of s2)) + col2num s2.
Proof.
  unfold col2num, letters_of. rewrite list_ascii_of_string_app, fold_left_app.
  apply col2num_fold_acc.
Qed.

Lemma repunit_pow (k : nat) : 25 * repunit k = 26 ^ Z.of_nat k - 1.
Proof.
  induction k as [|k IH]; [reflexivity|].
  rewrite Nat2Z.inj_succ, Z.pow_succ_r by lia. cbn [repunit]. lia.
Qed.

Lemma repunit_nonneg (k : nat) : 0 <= repunit k.
Proof. induction k; cbn [repunit]; lia. Qed.

Lemma repunit_mono (j k : nat) : (j < k)%nat -> 26 * repunit j < repunit k.
Proof.
  induction 1 as [|k H IH]; cbn [repunit]; [lia|].
  pose proof (repunit_nonneg k). lia.
Qed.

(** A list of [k] letters A-Z decodes to a number from [repunit k] to
    [26 * repunit k]. *)
Lemma col2num_fold_bounds (l : list ascii) :
  forallb is_upper_letter l = true ->
  repunit (length l) <= fold_left col2num_step l 0 <= 26 * repunit (length l).
Proof.
  induction l as [|c l IH] using rev_ind; intros Hl; [simpl; lia|].
  rewrite forallb_app in Hl. apply andb_prop in Hl as [Hl Hc].
  simpl in Hc. rewrite andb_true_r in Hc.
  destruct (upper_letter_spec c Hc) as (Hlet & Hrange & _).
  rewrite fold_left_app. cbn [fold_left].
  rewrite col2num_step_letter by assumption.
  rewrite length_app, Nat.add_comm. cbn [length Nat.add repunit].
  specialize (IH Hl). lia.
Qed.

(** X2: The number of letters of a label tells the range of its index, and
    the range tells the number of letters: the label that [num2col]
    returns for [n] has [k] letters exactly when
    [repunit k <= n <= 26 * repunit k], where [25 * repunit k = 26^k - 1]
    (1 to 26 for one letter, 27 to 702 for two, 703 to 18278 for three). *)
Theorem num2col_length (fuel : nat) (n : Z) (label : string) (k : nat)
  (Hret : num2col fuel n = Returns label) :
  (repunit k <= n <= 26 * repunit k <-> k = String.length label) /\
  25 * repunit k = 26 ^ Z.of_nat k - 1.
Proof.
  split; [|apply repunit_pow].
  unfold num2col in Hret.
  destruct (num2col_loop fuel n []) as [r| |] eqn:Hr; simpl in Hret;
    try discriminate.
  injection Hret as <-.
  pose proof (num2col_loop_decodes _ _ _ _ Hr) as Hdec. simpl in Hdec.
  destruct (num2col_loop_prefix _ _ _ _ Hr) as (l & -> & Hl & _).
  rewrite app_nil_r in *.
  pose proof (col2num_fold_bounds l Hl) as Hb. rewrite Hdec in Hb.
  rewrite <- string_length_list, list_ascii_of_string_of_list_ascii.
  split.
  - intros Hk.
    destruct (Nat.lt_trichotomy k (length l)) as [H|[H|H]]; [|assumption|].
    + pose proof (repunit_mono _ _ H). lia.
    + pose proof (repunit_mono _ _ H). lia.
  - intros ->. exact Hb.
Qed.

Lemma num2col_length_witness :
  (repunit 2 <= 702 <= 26 * repunit 2 <-> 2%nat = String.length "ZZ") /\
  25 * repunit 2 = 26 ^ Z.of_nat 2 - 1.
Proof.
  apply (num2col_length 702 702 "ZZ" 2). reflexivity.
Defined.

Lemma upper_letter_value (c : ascii) :
  is_upper_letter c = true -> letter_value c = ord c - 65.
Proof.
  intros Hc. destruct (upper_letter_spec c Hc) as (Hlet & _ & _).
  assert (H : letter_range_ok c = true)
    by (revert c Hc Hlet; intros c _ _; apply ascii_forallb;
        vm_compute; reflexivity).
  unfold letter_range_ok in H. rewrite Hlet, Hc in H. cbn [implb] in H.
  apply andb_prop in H as [_ H]. apply andb_prop in H as [_ H].
  apply Z.eqb_eq in H. exact H.
Qed.

Lemma col2num_fold_cons (c : ascii) (l : list ascii) :
  is_upper_letter c = true ->
  fold_left col2num_step (c :: l) 0 =
  (letter_value c + 1) * 26 ^ Z.of_nat (length (List.filter is_letter l)) +
  fold_left col2num_step l 0.
Proof.
  intros Hc. destruct (upper_letter_spec c Hc) as (Hlet & _ & _).
  cbn [fold_left]. rewrite col2num_step_letter by assumption.
  rewrite col2num_fold_acc. ring.
Qed.

Lemma filter_letters_upper (l : list ascii) :
  forallb is_upper_letter l = true -> List.filter is_letter l = l.
Proof.
  induction l as [|c l IH]; simpl; [reflexivity|]. intros H.
  apply andb_prop in H as [Hc Hl].
  destruct (upper_letter_spec c Hc) as (-> & _ & _). now rewrite IH.
Qed.

(** On labels of one length the order of the indices is the order of the
    dictionary. *)
Lemma col2num_fold_lex (l1 : list ascii) :
  forall l2,
    length l1 = length l2 ->
    forallb is_upper_letter l1 = true -> forallb is_upper_letter l2 = true ->
    (fold_left col2num_step l1 0 < fold_left col2num_step l2 0 <->
     lex_ltb l1 l2 = true).
Proof.
  induction l1 as [|c1 l1 IH]; intros [|c2 l2] Hlen H1 H2; try discriminate.
  - simpl. split; [lia | discriminate].
  - simpl in Hlen. injection Hlen as Hlen.
    simpl in H1, H2. apply andb_prop in H1 as [Hc1 H1].
    apply andb_prop in H2 as [Hc2 H2].
    rewrite !col2num_fold_cons by assumption.
    rewrite !filter_letters_upper by assumption. rewrite <- Hlen.
    pose proof (col2num_fold_bounds l1 H1) as B1.
    pose proof (col2num_fold_bounds l2 H2) as B2. rewrite <- Hlen in B2.
    pose proof (repunit_pow (length l1)) as Hp.
    pose proof (repunit_nonneg (length l1)) as Hg.
    rewrite !upper_letter_value by assumption.
    specialize (IH l2 Hlen H1 H2).
    set (p := 26 ^ Z.of_nat (length l1)) in *.
    set (x1 := fold_left col2num_step l1 0) in *.
    set (x2 := fold_left col2num_step l2 0) in *.
    cbn [lex_ltb].
    destruct (Z.lt_trichotomy (ord c1) (ord c2)) as [Hlt|[Heq|Hgt]].
    + assert ((ord c1 <? ord c2) = true) as -> by (apply Z.ltb_lt; lia).
      simpl. split; [reflexivity|]. intros _. nia.
    + assert ((ord c1 <? ord c2) = false) as -> by (apply Z.ltb_ge; lia).
      assert ((ord c1 =? ord c2) = true) as -> by (apply Z.eqb_eq; lia).
      simpl. rewrite <- IH, Heq. lia.
    + assert ((ord c1 <? ord c2) = false) as -> by (apply Z.ltb_ge; lia).
      assert ((ord c1 =? ord c2) = false) as -> by (apply Z.eqb_neq; lia).
      simpl. split; [|discriminate]. intros Hlt. exfalso. nia.
Qed.

(** X3: [col2num] is increasing on the well-formed labels, ordered by their
    length first and by the dictionary among labels of one length:
    A < B < ... < Z < AA < AB < ... *)
Theorem col2num_shortlex (s1 s2 : string)
  (H1 : well_formed_label s1) (H2 : well_formed_label s2) :
  col2num s1 < col2num s2 <-> shortlex_ltb s1 s2 = true.
Proof.
  destruct H1 as [_ H1], H2 as [_ H2]. unfold col2num, shortlex_ltb.
  rewrite <- !string_length_list.
  set (l1 := list_ascii_of_string s1) in *.
  set (l2 := list_ascii_of_string s2) in *.
  pose proof (col2num_fold_bounds l1 H1) as B1.
  pose proof (col2num_fold_bounds l2 H2) as B2.
  destruct (Nat.lt_trichotomy (length l1) (length l2)) as [Hlt|[Heq|Hgt]].
  - assert ((length l1 <? length l2)%nat = true) as -> by (apply Nat.ltb_lt; lia).
    simpl. pose proof (repunit_mono _ _ Hlt). split; [reflexivity | lia].
  - assert ((length l1 <? length l2)%nat = false) as -> by (apply Nat.ltb_ge; lia).
    assert ((length l1 =? length l2)%nat = true) as -> by (apply Nat.eqb_eq; lia).
    simpl. now apply col2num_fold_lex.
  - assert ((length l1 <? length l2)%nat = false) as -> by (apply Nat.ltb_ge; lia).
    assert ((length l1 =? length l2)%nat = false) as -> by (apply Nat.eqb_neq; lia).
    simpl. pose proof (repunit_mono _ _ Hgt). split; [lia | discriminate].
Qed.

Lemma col2num_shortlex_witness :
  col2num "Z" < col2num "AA" <-> shortlex_ltb "Z" "AA" = true.
Proof.
  apply (col2num_shortlex "Z" "AA");
    (split; [discriminate | reflexivity]).
Defined.

Lemma upper_of_letter (c : ascii) :
  is_letter c = true ->
  is_upper_letter (upper c) = true /\ letter_value (upper c) = letter_value c.
Proof.
  intros Hc.
  assert (H : upper_of_letter_ok c = true)
    by (revert c Hc; intros c _; apply ascii_forallb; vm_compute; reflexivity).
  unfold upper_of_letter_ok in H. rewrite Hc in H. cbn [implb] in H.
  apply andb_prop in H as [H1 H2]. apply Z.eqb_eq in H2. auto.
Qed.

Lemma normalize_upper (l : list ascii) :
  forallb is_letter l = true ->
  forallb is_upper_letter (map upper l) = true.
Proof.
  induction l as [|c l IH]; simpl; [reflexivity|]. intros H.
  apply andb_prop in H as [Hc Hl].
  destruct (upper_of_letter c Hc) as [-> _]. now apply IH.
Qed.

Lemma normalize_value (l : list ascii) :
  forallb is_letter l = true ->
  forall num,
    fold_left (fun n c => n * 26 + letter_value c + 1) (map upper l) num =
    fold_left (fun n c => n * 26 + letter_value c + 1) l num.
Proof.
  induction l as [|c l IH]; simpl; [reflexivity|]. intros H num.
  apply andb_prop in H as [Hc Hl].
  destruct (upper_of_letter c Hc) as [_ ->]. now apply IH.
Qed.

(** X4: Decoding and encoding again normalizes a string: what is not a letter
    is dropped and the letters are in upper case. With fuel for one round
    for each character, [num2col (col2num s)] returns [normalize s]. *)
Theorem num2col_col2num_normalizes (s : string) (fuel : nat)
  (Hfuel : (String.length s <= fuel)%nat) :
  num2col fuel (col2num s) = Returns (normalize s).
Proof.
  unfold num2col, col2num, normalize, letters_of.
  set (l := list_ascii_of_string s).
  assert (Hlet : forallb is_letter (List.filter is_letter l) = true)
    by apply filter_all.
  assert (Hval : fold_left col2num_step l 0 =
                 fold_left col2num_step (map upper (List.filter is_letter l)) 0).
  { rewrite !col2num_fold_letters.
    rewrite (filter_letters_upper (map upper _)) by (now apply normalize_upper).
    now rewrite normalize_value. }
  rewrite Hval, num2col_loop_encodes.
  - simpl. now rewrite app_nil_r.
  - now apply normalize_upper.
  - rewrite length_map. subst l.
    pose proof (filter_length_le is_letter (list_ascii_of_string s)).
    rewrite string_length_list in *. lia.
Qed.

Lemma num2col_col2num_normalizes_witness :
  num2col 4 (col2num "$ab1") = Returns (normalize "$ab1").
Proof.
  apply (num2col_col2num_normalizes "$ab1" 4). simpl. lia.
Defined.

Lemma fold_letters_positive (l : list ascii) :
  forallb is_letter l = true -> l <> [] ->
  forall num, 0 <= num ->
    0 < fold_left (fun n c => n * 26 + letter_value c + 1) l num.
Proof.
  induction l as [|c l IH]; intros Hl Hne num Hnum; [congruence|].
  simpl in *. apply andb_prop in Hl as [Hc Hl].
  pose proof (letter_range_spec c Hc) as [Hr _].
  destruct l as [|c' l]; [simpl; lia|].
  apply IH; [assumption | discriminate | lia].
Qed.

(** X5: [col2num] is never negative, and it is 0 for the strings without a
    letter and for no other string: 0 tells the caller that no column was
    read. *)
Theorem col2num_zero_iff (s : string) :
  0 <= col2num s /\ (col2num s = 0 <-> letters_of s = []).
Proof.
  unfold col2num, letters_of. split.
  - apply (col2num_fold_lower_bound _ 0). lia.
  - rewrite col2num_fold_letters. split.
    + intros H0.
      destruct (List.filter is_letter (list_ascii_of_string s)) as [|c l] eqn:E;
        [reflexivity|].
      pose proof (fold_letters_positive (c :: l)) as Hpos.
      rewrite <- E in Hpos. specialize (Hpos (filter_all _ _)).
      rewrite E in Hpos. specialize (Hpos ltac:(discriminate) 0 ltac:(lia)).
      rewrite <- E in H0 at 1. rewrite E in H0. lia.
    + intros ->. reflexivity.
Qed.

Lemma col2num_zero_iff_witness :
  0 <= col2num "$7" /\ (col2num "$7" = 0 <-> letters_of "$7" = []).
Proof. apply (col2num_zero_iff "$7"). Defined.

End LabelOrderFacts.

(** ** More facts about the free-slot finder *)

Module FinderFacts.
Import Outlook OutlookProps OutlookFacts FinderProps.

(** [find_open_slots] in three steps: the window, the list [open_slots],
    the last loop. *)
Lemma find_open_slots_steps (fuel : nat) (appts : list (Z * Z)) (duration : option Z) :
  find_open_slots fuel appts duration =
  let! hours := hours_of appts in
  let! open_slots := open_slots_of fuel appts duration in
  let! this := py_index open_slots 0 in
  Returns (DateLine (fst this) :: merge hours this (skipn 1 open_slots)).
Proof.
  unfold find_open_slots, open_slots_of, hours_of, duration_of.
  destruct (py_index appts 0) as [first| |]; cbn [obind]; try reflexivity.
  destruct (py_index appts (-1)) as [last| |]; cbn [obind]; reflexivity.
Qed.

(** What a returning call has computed on its way. *)
Lemma find_open_slots_returns (fuel : nat) (appts : list (Z * Z))
  (duration : option Z) (lines : list line) :
  find_open_slots fuel appts duration = Returns lines ->
  exists hours this rest,
    hours_of appts = Returns hours /\
    open_slots_of fuel appts duration = Returns (this :: rest) /\
    lines = DateLine (fst this) :: merge hours this rest.
Proof.
  rewrite find_open_slots_steps. intros H.
  destruct (hours_of appts) as [hours| |]; cbn [obind] in H; try discriminate.
  destruct (open_slots_of fuel appts duration) as [os| |]; cbn [obind] in H;
    try discriminate.
  destruct (py_index os 0) as [this| |] eqn:E; cbn [obind] in H; try discriminate.
  apply py_index_zero in E as [rest ->]. injection H as <-.
  exists hours, this, rest. auto.
Qed.

Lemma hours_of_returns (appts : list (Z * Z)) (hours : Z * Z) :
  hours_of appts = Returns hours ->
  exists first last,
    In first appts /\ In last appts /\
    hours =
    (datetime_ymdh (year (fst first)) (month (fst first)) (day (fst first)) 9,
     datetime_ymdh (year (snd last)) (month (snd last)) (day (snd last)) 18).
Proof.
  unfold hours_of. intros H.
  destruct (py_index appts 0) as [first| |] eqn:E0; cbn [obind] in H;
    try discriminate.
  destruct (py_index appts (-1)) as [last| |] eqn:E1; cbn [obind] in H;
    try discriminate.
  injection H as <-. exists first, last. repeat split.
  - unfold py_index in E0. destruct (_ && _); [|discriminate].
    destruct (nth_error _ _) eqn:E; [|discriminate].
    injection E0 as <-. eapply nth_error_In; eauto.
  - unfold py_index in E1. destruct (_ && _); [|discriminate].
    destruct (nth_error _ _) eqn:E; [|discriminate].
    injection E1 as <-. eapply nth_error_In; eauto.
Qed.

(** X6: With a duration that is not positive a call does not return,
    whatever the fuel: it raises or it runs for ever. *)
Theorem nonpositive_duration_never_returns
  (fuel : nat) (appts : list (Z * Z)) (d : Z) (lines : list line)
  (Hd : d <= 0) :
  find_open_slots fuel appts (Some d) <> Returns lines.
Proof.
  intros H. apply find_open_slots_returns in H
    as (hours & this & rest & Hh & Hos & _).
  unfold open_slots_of in Hos. rewrite Hh in Hos. cbn [obind] in Hos.
  apply fill_nonpositive in Hos; [discriminate | exact Hd].
Qed.

Lemma nonpositive_duration_never_returns_witness :
  find_open_slots 100 two_appts (Some 0) <> Returns [].
Proof.
  apply (nonpositive_duration_never_returns 100 two_appts 0 []). lia.
Defined.

(** X7: With a positive duration a call ends: from some fuel on it returns
    or raises, and more fuel does not change the outcome. *)
Theorem positive_duration_settles (appts : list (Z * Z)) (duration : option Z)
  (Hd : 0 < duration_of duration) :
  exists fuel, forall fuel',
    (fuel <= fuel')%nat ->
    find_open_slots fuel' appts duration <> Diverges /\
    find_open_slots fuel' appts duration = find_open_slots fuel appts duration.
Proof.
  destruct (find_open_slots_terminates appts duration Hd) as [fuel Hfuel].
  exists fuel. intros fuel' Hle. split; [now apply Hfuel|].
  apply find_open_slots_fuel_mono; [|exact Hle]. apply Hfuel. lia.
Qed.

Lemma positive_duration_settles_witness :
  exists fuel, forall fuel',
    (fuel <= fuel')%nat ->
    find_open_slots fuel' two_appts None <> Diverges /\
    find_open_slots fuel' two_appts None = find_open_slots fuel two_appts None.
Proof.
  apply (positive_duration_settles two_appts None). reflexivity.
Defined.

(** The slots of [open_slots] are in a row when the appointments are
    well formed. *)
Lemma open_slots_ordered (fuel : nat) (appts : list (Z * Z))
  (duration : option Z) (os : list (Z * Z)) :
  Forall wf_appt appts ->
  open_slots_of fuel appts duration = Returns os ->
  exists lo, ordered lo os.
Proof.
  intros Hwf H. unfold open_slots_of in H.
  destruct (hours_of appts) as [[h0 h1]| |]; cbn [obind fst snd app] in H;
    try discriminate.
  destruct (Z_le_gt_dec (duration_of duration) 0) as [Hd|Hd].
  - apply fill_nonpositive in H; [|assumption]. subst os. exists 0. exact I.
  - destruct (sorted ((h0, h0) :: appts ++ [(h1, h1)])) as [|m markers] eqn:Hs.
    + simpl in H. injection H as <-. exists 0. exact I.
    + apply fill_ordered in H as (new & -> & Hord); try lia.
      * exists (fst m). exact Hord.
      * rewrite <- Hs. apply sorted_starts.
      * rewrite <- Hs. apply sorted_Forall.
        constructor; [unfold wf_appt; simpl; lia|].
        apply Forall_app. split; [assumption|].
        constructor; [unfold wf_appt; simpl; lia | constructor].
Qed.

Lemma ordered_last (l : list (Z * Z)) :
  forall lo L, ordered lo l -> last l = Some L -> lo <= fst L.
Proof.
  induction l as [|x l IH]; intros lo L Hord Hlast; [discriminate|].
  simpl in Hord. destruct Hord as (H1 & H2 & H3).
  destruct l as [|y l].
  - simpl in Hlast. injection Hlast as <-. exact H1.
  - specialize (IH (snd x) L H3 Hlast). lia.
Qed.

(** Each printed range ends before the last of the slots starts. *)
Lemma merge_before_last (hours : Z * Z) (rest : list (Z * Z)) :
  forall this L,
    ordered (snd this) rest -> last rest = Some L ->
    Forall (fun r => snd r < fst L) (ranges_of (merge hours this rest)).
Proof.
  induction rest as [|slot rest IH]; intros this L Hord Hlast; [constructor|].
  simpl in Hord. destruct Hord as (H1 & H2 & H3).
  assert (Hfirst : fst slot <= fst L).
  { destruct rest as [|y rest].
    - simpl in Hlast. injection Hlast as <-. lia.
    - pose proof (ordered_last _ _ _ H3 Hlast). lia. }
  destruct rest as [|y rest].
  - simpl in Hlast. injection Hlast as <-. simpl.
    destruct (outside_hours hours (fst slot)); [constructor|].
    destruct (outside_hours hours (snd slot)); [constructor|].
    destruct (fst slot <=? snd this) eqn:E; [constructor|].
    apply Z.leb_gt in E. simpl.
    destruct (negb _); simpl; repeat constructor; simpl; lia.
  - assert (Hlast' : last (y :: rest) = Some L) by exact Hlast.
    assert (Hskip : ordered (snd this) (y :: rest))
      by (eapply ordered_weaken; [|exact H3]; lia).
    cbn [merge].
    destruct (outside_hours hours (fst slot)); [now apply IH|].
    destruct (outside_hours hours (snd slot)); [now apply IH|].
    destruct (fst slot <=? snd this) eqn:E.
    + apply (IH (fst this, snd slot)); assumption.
    + apply Z.leb_gt in E.
      assert (Hrest : Forall (fun r => snd r < fst L)
                        (ranges_of (merge hours slot (y :: rest))))
        by (now apply IH).
      destruct (negb _); simpl; constructor; simpl; auto; lia.
Qed.

(** X8: The latest free time is never reported: when the appointments are
    well formed, every range that a returning call has printed ends
    before the last slot of [open_slots] starts, so that this slot is in
    no printed range. *)
Theorem last_slot_never_reported
  (fuel : nat) (appts : list (Z * Z)) (duration : option Z)
  (lines : list line) (os : list (Z * Z)) (L : Z * Z)
  (Hwf : Forall wf_appt appts)
  (Hret : find_open_slots fuel appts duration = Returns lines)
  (Hos : open_slots_of fuel appts duration = Returns os)
  (Hlast : last os = Some L) :
  Forall (fun r => snd r < fst L) (ranges_of lines).
Proof.
  apply find_open_slots_returns in Hret
    as (hours & this & rest & Hh & Hos' & ->).
  rewrite Hos' in Hos. injection Hos as <-.
  destruct (open_slots_ordered _ _ _ _ Hwf Hos') as [lo Hord].
  simpl in Hord. destruct Hord as (_ & _ & Hord). simpl.
  destruct rest as [|y rest]; [constructor|].
  now apply merge_before_last.
Qed.

Lemma last_slot_never_reported_witness :
  Forall (fun r => snd r < fst (at_ 17 30, at_ 18 0))
    (ranges_of [DateLine (at_ 9 0);
                RangeLine (at_ 9 0) (at_ 10 0);
                RangeLine (at_ 10 30) (at_ 14 0)]).
Proof.
  assert (Hwf : Forall wf_appt two_appts)
    by (repeat constructor; vm_compute; discriminate).
  eapply (last_slot_never_reported 7 two_appts None _ _ _ Hwf).
  - vm_compute. reflexivity.
  - vm_compute. reflexivity.
  - vm_compute. reflexivity.
Defined.

(** *** The hours of the reported ranges *)

Lemma hour_datetime_ymdh (y m d h : Z) :
  0 <= h < 24 -> hour (datetime_ymdh y m d h) = h.
Proof.
  intros Hh. unfold hour, datetime_ymdh, us_per_day, us_per_hour.
  replace ((ordinal_of_ymd y m d - 1) * 86400000000 + h * 3600000000)
    with (((ordinal_of_ymd y m d - 1) * 24 + h) * 3600000000) by ring.
  rewrite Z.div_mul by lia.
  rewrite Z.add_comm, Z.mod_add by lia. now apply Z.mod_small.
Qed.

Lemma hours_of_hour (appts : list (Z * Z)) (hours : Z * Z) :
  hours_of appts = Returns hours ->
  hour (fst hours) = 9 /\ hour (snd hours) = 18.
Proof.
  intros H. apply hours_of_returns in H as (first & last & _ & _ & ->).
  simpl. split; apply hour_datetime_ymdh; lia.
Qed.

(** From a value of [this] that has passed the test of the hours, every
    printed range has passed it, at its start and at its end. *)
Lemma merge_inside_from (hours : Z * Z) (rest : list (Z * Z)) :
  forall this,
    outside_hours hours (fst this) = false ->
    outside_hours hours (snd this) = false ->
    Forall (fun r => outside_hours hours (fst r) = false /\
                     outside_hours hours (snd r) = false)
      (ranges_of (merge hours this rest)).
Proof.
  induction rest as [|slot rest IH]; intros this H0 H1; [constructor|].
  cbn [merge].
  destruct (outside_hours hours (fst slot)) eqn:E0; [now apply IH|].
  destruct (outside_hours hours (snd slot)) eqn:E1; [now apply IH|].
  destruct (fst slot <=? snd this).
  - now apply (IH (fst this, snd slot)).
  - pose proof (IH slot E0 E1) as Hrest.
    destruct (negb _); simpl; constructor; auto.
Qed.

(** From any value of [this], every printed range but the first has
    passed the test of the hours. *)
Lemma merge_inside_tail (hours : Z * Z) (rest : list (Z * Z)) :
  forall this,
    Forall (fun r => outside_hours hours (fst r) = false /\
                     outside_hours hours (snd r) = false)
      (tl (ranges_of (merge hours this rest))).
Proof.
  induction rest as [|slot rest IH]; intros this; [constructor|].
  cbn [merge].
  destruct (outside_hours hours (fst slot)) eqn:E0; [now apply IH|].
  destruct (outside_hours hours (snd slot)) eqn:E1; [now apply IH|].
  destruct (fst slot <=? snd this).
  - apply (IH (fst this, snd slot)).
  - pose proof (merge_inside_from hours rest slot E0 E1) as Hrest.
    destruct (negb _); simpl; exact Hrest.
Qed.

Lemma inside_hours (hours : Z * Z) (t : Z) :
  hour (fst hours) = 9 -> hour (snd hours) = 18 ->
  outside_hours hours t = false -> 9 <= hour t <= 18.
Proof.
  unfold outside_hours. intros -> -> H.
  apply orb_false_elim in H as [H1 H2].
  apply Z.ltb_ge in H1. rewrite Z.gtb_ltb in H2. apply Z.ltb_ge in H2. lia.
Qed.

(** X9: Every range that a call prints after the first one starts and ends
    at an hour of the day from 9 to 18, whatever the appointments; the
    first range starts where the first slot starts, at any hour. *)
Theorem later_ranges_within_hours
  (fuel : nat) (appts : list (Z * Z)) (duration : option Z)
  (lines : list line) (i : nat) (r : Z * Z)
  (Hret : find_open_slots fuel appts duration = Returns lines)
  (Hi : (1 <= i)%nat)
  (Hr : nth_error (ranges_of lines) i = Some r) :
  9 <= hour (fst r) <= 18 /\ 9 <= hour (snd r) <= 18.
Proof.
  apply find_open_slots_returns in Hret
    as (hours & this & rest & Hh & _ & ->).
  destruct (hours_of_hour _ _ Hh) as [H9 H18].
  simpl in Hr. destruct i as [|i]; [lia|].
  pose proof (merge_inside_tail hours rest this) as Htl.
  destruct (ranges_of (merge hours this rest)) as [|r0 rs]; [discriminate|].
  simpl in Hr, Htl. rewrite List.Forall_forall in Htl.
  apply nth_error_In in Hr. destruct (Htl r Hr) as [Hs He].
  split; eapply inside_hours; eauto.
Qed.

(** *** The lengths of the reported ranges *)

Lemma subdivide_slot_length (fuel : nat) :
  forall start end_ duration open_slots result,
    subdivide fuel start end_ duration open_slots = Returns result ->
    exists new, result = open_slots ++ new /\
                Forall (fun x => snd x = fst x + duration) new.
Proof.
  induction fuel as [|fuel IH]; intros start end_ duration open_slots result H;
    rewrite subdivide_unfold in H;
    destruct (dt_add start duration) as [next| |] eqn:Hadd; simpl in H;
    try discriminate;
    apply dt_add_returns in Hadd; subst next;
    destruct (start + duration <=? end_) eqn:Hle; try discriminate.
  - injection H as <-. exists []. now rewrite app_nil_r.
  - apply IH in H as (new & -> & Hnew).
    exists ((start, start + duration) :: new). rewrite <- app_assoc.
    split; [reflexivity|]. constructor; auto.
  - injection H as <-. exists []. now rewrite app_nil_r.
Qed.

Lemma fill_slot_length (gs : list (Z * Z)) :
  forall fuel duration open_slots result,
    fill fuel gs duration open_slots = Returns result ->
    exists new, result = open_slots ++ new /\
                Forall (fun x => snd x = fst x + duration) new.
Proof.
  induction gs as [|[start end_] gs IH]; intros fuel duration open_slots result H;
    simpl in H.
  - injection H as <-. exists []. now rewrite app_nil_r.
  - destruct (subdivide fuel start end_ duration open_slots) as [os| |] eqn:E;
      simpl in H; try discriminate.
    apply subdivide_slot_length in E as (new1 & -> & H1).
    apply IH in H as (new2 & -> & H2).
    exists (new1 ++ new2). rewrite app_assoc. split; [reflexivity|].
    apply Forall_app. auto.
Qed.

Lemma open_slots_length (fuel : nat) (appts : list (Z * Z))
  (duration : option Z) (os : list (Z * Z)) :
  open_slots_of fuel appts duration = Returns os ->
  Forall (fun x => snd x = fst x + duration_of duration) os.
Proof.
  unfold open_slots_of. intros H.
  destruct (hours_of appts) as [hours| |]; cbn [obind] in H; try discriminate.
  apply fill_slot_length in H as (new & -> & Hnew). exact Hnew.
Qed.

(** Slots in a row of one length merge end to start: the printed ranges
    are whole numbers of slots long. *)
Lemma merge_whole_slots (hours : Z * Z) (d : Z) (rest : list (Z * Z)) :
  forall this k,
    1 <= k -> snd this = fst this + k * d ->
    ordered (snd this) rest ->
    Forall (fun x => snd x = fst x + d) rest ->
    Forall (fun r => exists k, 1 <= k /\ snd r = fst r + k * d)
      (ranges_of (merge hours this rest)).
Proof.
  induction rest as [|slot rest IH]; intros this k Hk Hthis Hord Hlen;
    [constructor|].
  simpl in Hord. destruct Hord as (H1 & H2 & H3).
  inversion Hlen as [|? ? Hslot Hlen']; subst.
  assert (Hskip : ordered (snd this) rest)
    by (eapply ordered_weaken; [|exact H3]; lia).
  cbn [merge].
  destruct (outside_hours hours (fst slot)); [now apply (IH this k)|].
  destruct (outside_hours hours (snd slot)); [now apply (IH this k)|].
  destruct (fst slot <=? snd this) eqn:E.
  - apply Z.leb_le in E. apply (IH (fst this, snd slot) (k + 1)); simpl; auto; lia.
  - assert (Hrest : Forall (fun r => exists k, 1 <= k /\ snd r = fst r + k * d)
                      (ranges_of (merge hours slot rest)))
      by (apply (IH slot 1); auto; lia).
    destruct (negb _); simpl; constructor; auto; exists k; auto.
Qed.

(** X10: When the appointments are well formed, every printed range is a
    whole number of slots long: its length is the duration times a
    number that is 1 or more. What is left of a gap and is shorter than
    the duration is in no range. *)
Theorem ranges_are_whole_slots
  (fuel : nat) (appts : list (Z * Z)) (duration : option Z) (lines : list line)
  (Hwf : Forall wf_appt appts)
  (Hret : find_open_slots fuel appts duration = Returns lines) :
  Forall (fun r => exists k, 1 <= k /\ snd r - fst r = k * duration_of duration)
    (ranges_of lines).
Proof.
  apply find_open_slots_returns in Hret
    as (hours & this & rest & Hh & Hos & ->).
  destruct (open_slots_ordered _ _ _ _ Hwf Hos) as [lo Hord].
  pose proof (open_slots_length _ _ _ _ Hos) as Hlen.
  simpl in Hord. destruct Hord as (_ & _ & Hord).
  inversion Hlen as [|? ? Hthis Hrest]; subst. simpl.
  eapply List.Forall_impl;
    [|apply (merge_whole_slots hours (duration_of duration) rest this 1);
      auto; lia].
  simpl. intros r (k & Hk & Hr). exists k. split; [assumption | lia].
Qed.

Lemma ranges_are_whole_slots_witness :
  Forall (fun r => exists k, 1 <= k /\ snd r - fst r = k * duration_of None)
    (ranges_of [DateLine (at_ 9 0);
                RangeLine (at_ 9 0) (at_ 10 0);
                RangeLine (at_ 10 30) (at_ 14 0)]).
Proof.
  assert (Hwf : Forall wf_appt two_appts)
    by (repeat constructor; vm_compute; discriminate).
  apply (ranges_are_whole_slots 7 two_appts None _ Hwf).
  vm_compute. reflexivity.
Defined.

Lemma later_ranges_within_hours_witness :
  9 <= hour (fst (at_ 10 30, at_ 14 0)) <= 18 /\
  9 <= hour (snd (at_ 10 30, at_ 14 0)) <= 18.
Proof.
  apply (later_ranges_within_hours 7 two_appts None
           [DateLine (at_ 9 0);
            RangeLine (at_ 9 0) (at_ 10 0);
            RangeLine (at_ 10 30) (at_ 14 0)] 1).
  - vm_compute. reflexivity.
  - lia.
  - reflexivity.
Defined.

(** *** The reported ranges are free *)

Lemma tuple_leb_spec (a b : Z * Z) :
  tuple_leb a b = true <->
  fst a < fst b \/ (fst a = fst b /\ snd a <= snd b).
Proof.
  unfold tuple_leb.
  rewrite orb_true_iff, andb_true_iff, Z.ltb_lt, Z.eqb_eq, Z.leb_le. tauto.
Qed.

Lemma tuple_leb_trans (a b c : Z * Z) :
  tuple_leb a b = true -> tuple_leb b c = true -> tuple_leb a c = true.
Proof. rewrite !tuple_leb_spec. lia. Qed.

Lemma insert_sorted_In (x a : Z * Z) (l : list (Z * Z)) :
  In x l \/ x = a -> In x (insert_sorted a l).
Proof.
  induction l as [|b l IH]; simpl.
  - intros [H| ->]; [destruct H | now left].
  - destruct (tuple_leb a b); simpl; intros [[->|H]| ->]; auto.
Qed.

Lemma sorted_In (x : Z * Z) (l : list (Z * Z)) : In x l -> In x (sorted l).
Proof.
  induction l as [|a l IH]; simpl; [auto|].
  intros [->|H]; apply insert_sorted_In; auto.
Qed.

(** [sorted] sorts: each tuple is at or before each later one. *)
Lemma insert_sorted_pairs (a : Z * Z) (l : list (Z * Z)) :
  all_pairs (fun x y => tuple_leb x y = true) l ->
  all_pairs (fun x y => tuple_leb x y = true) (insert_sorted a l).
Proof.
  induction l as [|b l IH]; simpl; intros H.
  - split; constructor.
  - destruct H as [Hb Hl]. destruct (tuple_leb a b) eqn:E; simpl.
    + repeat split; auto. constructor; [assumption|].
      eapply List.Forall_impl; [|exact Hb]. simpl. intros c Hc.
      eapply tuple_leb_trans; eauto.
    + split; [|auto]. apply insert_sorted_Forall; [|assumption].
      now apply tuple_leb_total.
Qed.

Lemma sorted_pairs (l : list (Z * Z)) :
  all_pairs (fun x y => tuple_leb x y = true) (sorted l).
Proof.
  induction l as [|a l IH]; simpl; [exact I|]. now apply insert_sorted_pairs.
Qed.

(** A symmetric relation between all pairs is kept by [sorted]. *)
Lemma insert_sorted_all_pairs (R : Z * Z -> Z * Z -> Prop) (a : Z * Z)
  (l : list (Z * Z)) :
  (forall x y, R x y -> R y x) ->
  Forall (R a) l -> all_pairs R l -> all_pairs R (insert_sorted a l).
Proof.
  intros Hsym. induction l as [|b l IH]; simpl; intros Ha H.
  - split; constructor.
  - destruct H as [Hb Hl]. inversion Ha as [|? ? Hab Ha']; subst.
    destruct (tuple_leb a b); simpl.
    + repeat split; auto.
    + split; [|auto]. apply insert_sorted_Forall; auto.
Qed.

Lemma sorted_all_pairs (R : Z * Z -> Z * Z -> Prop) (l : list (Z * Z)) :
  (forall x y, R x y -> R y x) ->
  all_pairs R l -> all_pairs R (sorted l).
Proof.
  intros Hsym. induction l as [|a l IH]; simpl; [auto|]. intros [Ha Hl].
  apply insert_sorted_all_pairs; auto. now apply sorted_Forall.
Qed.

Lemma all_pairs_app {A} (R : A -> A -> Prop) (l1 l2 : list A) :
  all_pairs R l1 -> all_pairs R l2 ->
  Forall (fun a => Forall (R a) l2) l1 ->
  all_pairs R (l1 ++ l2).
Proof.
  induction l1 as [|a l1 IH]; simpl; intros H1 H2 H12; [assumption|].
  destruct H1 as [Ha H1]. inversion H12 as [|? ? Ha2 H12']; subst.
  split; [apply Forall_app; auto | auto].
Qed.

Lemma apart_sym (a b : Z * Z) : apart a b -> apart b a.
Proof. unfold apart. tauto. Qed.

(** Sorted, apart and well formed: each marker ends by the start of each
    later one. *)
Lemma sorted_apart_chain (l : list (Z * Z)) :
  all_pairs (fun x y => tuple_leb x y = true) l ->
  all_pairs apart l -> Forall wf_appt l ->
  all_pairs (fun x y => snd x <= fst y) l.
Proof.
  induction l as [|a l IH]; simpl; [auto|].
  intros [Hs Hsl] [Ha Hal] Hwf. inversion Hwf as [|? ? Hwa Hwl]; subst.
  split; [|auto].
  clear IH Hsl Hal Hwf.
  induction l as [|b l IHl]; constructor.
  - inversion Hs as [|? ? Hsb _]; inversion Ha as [|? ? Hab _];
      inversion Hwl as [|? ? Hwb _]; subst.
    apply tuple_leb_spec in Hsb. unfold apart, wf_appt in *. lia.
  - inversion Hs; inversion Ha; inversion Hwl; subst. auto.
Qed.

(** Between markers in such a chain, each slot is at or after the end of
    the first marker and apart from each other marker. *)
Lemma fill_apart (markers : list (Z * Z)) :
  forall m fuel duration open_slots result,
    0 < duration ->
    all_pairs (fun x y => snd x <= fst y) (m :: markers) ->
    Forall wf_appt (m :: markers) ->
    fill fuel (gaps (m :: markers)) duration open_slots = Returns result ->
    exists new,
      result = open_slots ++ new /\
      Forall (fun x => snd m <= fst x /\ Forall (apart x) markers) new.
Proof.
  induction markers as [|m' markers IH];
    intros m fuel duration open_slots result Hd Hch Hwf H.
  - simpl in H. injection H as <-. exists []. now rewrite app_nil_r.
  - cbn [gaps fill] in H.
    destruct (subdivide fuel (snd m) (fst m') duration open_slots) as [os| |] eqn:E;
      simpl in H; try discriminate.
    apply subdivide_ordered in E as (new1 & -> & Hord1 & Hb1); [|assumption].
    destruct Hch as [Hm Hch]. inversion Hm as [|? ? Hmm' Hm']; subst.
    inversion Hwf as [|? ? Hwm Hwf']; subst.
    inversion Hwf' as [|? ? Hwm' _]; subst.
    destruct Hch as [Hm'' Hch'].
    apply (IH m') in H as (new2 & -> & H2); auto; [|split; assumption].
    exists (new1 ++ new2). rewrite app_assoc. split; [reflexivity|].
    apply Forall_app. split.
    + apply ordered_start_end in Hord1.
      rewrite List.Forall_forall in Hord1, Hb1 |- *.
      intros x Hx. specialize (Hord1 x Hx). specialize (Hb1 x Hx).
      split; [lia|]. constructor; [left; exact Hb1|].
      eapply List.Forall_impl; [|exact Hm'']. simpl. intros c Hc.
      left. unfold wf_appt in *. lia.
    + eapply List.Forall_impl; [|exact H2]. simpl. intros x [Hx Hxs].
      unfold wf_appt in *. split; [lia|]. constructor; [right; assumption|].
      exact Hxs.
Qed.

(** The last loop prints instants of [this] and of the slots only. *)
Lemma merge_covered (P : Z -> Prop) (hours : Z * Z) (rest : list (Z * Z)) :
  forall this,
    (forall t, within t this -> P t) ->
    Forall (fun x => forall t, within t x -> P t) rest ->
    Forall (fun r => forall t, within t r -> P t)
      (ranges_of (merge hours this rest)).
Proof.
  induction rest as [|slot rest IH]; intros this Hthis Hrest; [constructor|].
  inversion Hrest as [|? ? Hslot Hrest']; subst. cbn [merge].
  destruct (outside_hours hours (fst slot)); [now apply IH|].
  destruct (outside_hours hours (snd slot)); [now apply IH|].
  destruct (fst slot <=? snd this) eqn:E.
  - apply Z.leb_le in E. apply IH; [|assumption].
    unfold within in *. simpl. intros t Ht.
    destruct (Z_lt_ge_dec t (snd this)); [apply Hthis | apply Hslot]; lia.
  - pose proof (IH slot Hslot Hrest') as Hr.
    destruct (negb _); simpl; constructor; auto.
Qed.

(** X11: What is reported is free: when the appointments are well formed, no
    two of them overlap and all are in the window (from 09:00 of the day
    the first starts to 18:00 of the day the last ends), no instant of a
    printed range is an instant of an appointment. *)
Theorem reported_ranges_are_free
  (fuel : nat) (appts : list (Z * Z)) (duration : option Z)
  (lines : list line) (h0 h1 : Z)
  (Hwf : Forall wf_appt appts)
  (Hapart : all_pairs apart appts)
  (Hhours : hours_of appts = Returns (h0, h1))
  (Hwindow : Forall (fun a => h0 <= fst a /\ snd a <= h1) appts)
  (Hret : find_open_slots fuel appts duration = Returns lines) :
  forall r a t,
    In r (ranges_of lines) -> In a appts -> within t r -> ~ within t a.
Proof.
  apply find_open_slots_returns in Hret
    as (hours & this & rest & Hh & Hos & ->).
  rewrite Hhours in Hh. injection Hh as <-.
  assert (Hd : 0 < duration_of duration).
  { destruct (Z_le_gt_dec (duration_of duration) 0) as [Hd|Hd]; [|lia].
    unfold open_slots_of in Hos. rewrite Hhours in Hos. cbn [obind] in Hos.
    apply fill_nonpositive in Hos; [discriminate | assumption]. }
  assert (Hne : h0 <= h1).
  { apply hours_of_returns in Hhours as (first & last & Hin & _ & _).
    rewrite List.Forall_forall in Hwf, Hwindow.
    specialize (Hwf _ Hin). specialize (Hwindow _ Hin).
    unfold wf_appt in Hwf. lia. }
  set (markers := (h0, h0) :: appts ++ [(h1, h1)]).
  assert (Hmwf : Forall wf_appt markers).
  { constructor; [unfold wf_appt; simpl; lia|].
    apply Forall_app. split; [assumption|].
    constructor; [unfold wf_appt; simpl; lia | constructor]. }
  assert (Hmapart : all_pairs apart markers).
  { split.
    - apply Forall_app. split.
      + eapply List.Forall_impl; [|exact Hwindow]. simpl. intros a Ha.
        left. simpl. lia.
      + constructor; [left; simpl; lia | constructor].
    - apply all_pairs_app; [assumption | split; constructor |].
      eapply List.Forall_impl; [|exact Hwindow]. simpl. intros a Ha.
      constructor; [left; simpl; lia | constructor]. }
  unfold open_slots_of in Hos. rewrite Hhours in Hos.
  cbn [obind fst snd app] in Hos. fold markers in Hos.
  pose proof (sorted_apart_chain (sorted markers) (sorted_pairs markers)
                (sorted_all_pairs apart markers apart_sym Hmapart)
                (sorted_Forall wf_appt markers Hmwf)) as Hchain.
  pose proof (sorted_Forall wf_appt markers Hmwf) as Hswf.
  assert (Hclear : Forall (fun x => forall a, In a appts -> apart x a)
                     (this :: rest)).
  { destruct (sorted markers) as [|m ms] eqn:Hs; [discriminate|].
    apply fill_apart in Hos as (new & Hnew & Hall); auto.
    simpl in Hnew. subst new.
    eapply List.Forall_impl; [|exact Hall]. simpl. intros x [Hx Hxs] a Ha.
    assert (Hin : In a (m :: ms)).
    { rewrite <- Hs. apply sorted_In. right. apply in_or_app. now left. }
    destruct Hin as [<-|Hin].
    - right. exact Hx.
    - rewrite List.Forall_forall in Hxs. now apply Hxs. }
  set (P := fun t : Z => forall a, In a appts -> ~ within t a).
  assert (Hfree : Forall (fun x => forall t, within t x -> P t) (this :: rest)).
  { eapply List.Forall_impl; [|exact Hclear]. simpl.
    intros x Hx t Ht a Ha Hta. specialize (Hx a Ha).
    unfold apart, within in *. lia. }
  inversion Hfree as [|? ? Hthis Hrest]; subst.
  pose proof (merge_covered P (h0, h1) rest this Hthis Hrest) as Hall.
  intros r a t Hr Ha Ht. simpl in Hr.
  rewrite List.Forall_forall in Hall. exact (Hall r Hr t Ht a Ha).
Qed.

Lemma reported_ranges_are_free_witness :
  ~ within (at_ 10 45) (at_ 10 0, at_ 10 30).
Proof.
  assert (Hwf : Forall wf_appt two_appts)
    by (repeat constructor; vm_compute; discriminate).
  assert (Hapart : all_pairs apart two_appts).
  { simpl. split; [|split; [constructor | exact I]].
    constructor; [|constructor]. left. vm_compute. discriminate. }
  assert (Hwindow : Forall (fun a => at_ 9 0 <= fst a /\ snd a <= at_ 18 0)
                      two_appts)
    by (repeat constructor; vm_compute; discriminate).
  apply (reported_ranges_are_free 7 two_appts None
           [DateLine (at_ 9 0);
            RangeLine (at_ 9 0) (at_ 10 0);
            RangeLine (at_ 10 30) (at_ 14 0)]
           (at_ 9 0) (at_ 18 0) Hwf Hapart)
    with (r := (at_ 10 30, at_ 14 0)).
  - vm_compute. reflexivity.
  - exact Hwindow.
  - vm_compute. reflexivity.
  - simpl. right. left. reflexivity.
  - left. reflexivity.
  - unfold within. simpl. split; vm_compute; [discriminate | reflexivity].
Defined.

(** The window is part of the condition: an appointment over 09:00 is
    well formed and overlaps nothing, and its time after 09:00 is
    printed as free. *)
Remark appointment_over_window_start :
  exists lines,
    find_open_slots 10 [(at_ 8 30, at_ 9 30); (at_ 12 0, at_ 13 0)] None =
      Returns lines /\
    In (at_ 9 0, at_ 12 0) (ranges_of lines) /\
    within (at_ 9 0) (at_ 9 0, at_ 12 0) /\ within (at_ 9 0) (at_ 8 30, at_ 9 30).
Proof.
  eexists. split; [vm_compute; reflexivity|].
  split; [left; reflexivity|].
  split; split; vm_compute; (discriminate || reflexivity).
Qed.

(** *** The order of the appointments *)

Lemma tuple_leb_antisym (a b : Z * Z) :
  tuple_leb a b = true -> tuple_leb b a = true -> a = b.
Proof.
  rewrite !tuple_leb_spec. destruct a as [a0 a1], b as [b0 b1]. simpl.
  intros H1 H2. f_equal; lia.
Qed.

Lemma insert_sorted_perm (a : Z * Z) (l : list (Z * Z)) :
  Permutation (a :: l) (insert_sorted a l).
Proof.
  induction l as [|b l IH]; simpl; [reflexivity|].
  destruct (tuple_leb a b); [reflexivity|].
  rewrite perm_swap. now apply perm_skip.
Qed.

Lemma sorted_perm (l : list (Z * Z)) : Permutation l (sorted l).
Proof.
  induction l as [|a l IH]; simpl; [reflexivity|].
  rewrite <- insert_sorted_perm. now apply perm_skip.
Qed.

(** Two sorted lists of the same tuples are one list. *)
Lemma sorted_unique (l1 : list (Z * Z)) :
  forall l2,
    Permutation l1 l2 ->
    all_pairs (fun x y => tuple_leb x y = true) l1 ->
    all_pairs (fun x y => tuple_leb x y = true) l2 ->
    l1 = l2.
Proof.
  induction l1 as [|a l1 IH]; intros l2 Hp H1 H2.
  - apply Permutation_nil in Hp. now subst.
  - destruct l2 as [|b l2];
      [apply Permutation_sym, Permutation_nil in Hp; discriminate|].
    assert (Hab : a = b).
    { destruct H1 as [Ha _], H2 as [Hb _].
      rewrite List.Forall_forall in Ha, Hb.
      assert (Hina : In a (b :: l2))
        by (eapply Permutation_in; [exact Hp | now left]).
      assert (Hinb : In b (a :: l1))
        by (eapply Permutation_in; [apply Permutation_sym; exact Hp | now left]).
      destruct Hina as [->|Hina]; [reflexivity|].
      destruct Hinb as [->|Hinb]; [reflexivity|].
      apply tuple_leb_antisym; auto. }
    subst b. f_equal. apply Permutation_cons_inv in Hp.
    destruct H1 as [_ H1], H2 as [_ H2]. now apply IH.
Qed.

Lemma sorted_of_perm (l1 l2 : list (Z * Z)) :
  Permutation l1 l2 -> sorted l1 = sorted l2.
Proof.
  intros Hp. apply sorted_unique; try apply sorted_pairs.
  rewrite <- (sorted_perm l1), <- (sorted_perm l2). exact Hp.
Qed.

(** X18: The order of the appointments counts for the window only: two lists
    of the same appointments that give the same window ([appts[0]] starts
    and [appts[-1]] ends on the same days) have the same outcome and the
    same lines printed. *)
Theorem order_counts_for_window_only
  (fuel : nat) (appts appts' : list (Z * Z)) (duration : option Z)
  (Hperm : Permutation appts appts')
  (Hhours : hours_of appts = hours_of appts') :
  find_open_slots fuel appts duration = find_open_slots fuel appts' duration.
Proof.
  rewrite !find_open_slots_steps. unfold open_slots_of. rewrite <- Hhours.
  destruct (hours_of appts) as [[h0 h1]| |]; cbn [obind fst snd]; try reflexivity.
  rewrite (sorted_of_perm ([(h0, h0)] ++ appts ++ [(h1, h1)])
             ([(h0, h0)] ++ appts' ++ [(h1, h1)])); [reflexivity|].
  apply Permutation_app_head. now apply Permutation_app_tail.
Qed.

Lemma order_counts_for_window_only_witness :
  find_open_slots 7 two_appts None =
  find_open_slots 7 [(at_ 14 0, at_ 15 0); (at_ 10 0, at_ 10 30)] None.
Proof.
  apply (order_counts_for_window_only 7 two_appts
           [(at_ 14 0, at_ 15 0); (at_ 10 0, at_ 10 30)] None).
  - apply perm_swap.
  - vm_compute. reflexivity.
Defined.

End FinderFacts.

(** ** Facts about the style sheet and the table *)

Module OutlookHtmlFacts.
Import Outlook OutlookHtml.

Example style_template_first_line :
  exists rest,
    format style_template style_defaults =
    Returns ("<style type=" ++ dq ++ "text/css" ++ dq ++ ">" ++ nl ++ rest)%string.
Proof. eexists. vm_compute. reflexivity. Qed.

Lemma setdefault_lookup (k v k' : string) (d : gmap string string) :
  setdefault k v d !! k' =
  match d !! k' with
  | Some x => Some x
  | None => if decide (k = k') then Some v else None
  end.
Proof.
  unfold setdefault. destruct (d !! k) as [x|] eqn:E.
  - destruct (d !! k') eqn:E'; [reflexivity|].
    destruct (decide (k = k')) as [->|]; [congruence | reflexivity].
  - rewrite lookup_insert. destruct (decide (k = k')) as [->|].
    + now rewrite E.
    + now destruct (d !! k').
Qed.

Lemma setdefault_present (k v : string) (d : gmap string string) :
  is_Some (d !! k) -> setdefault k v d = d.
Proof. unfold setdefault. now intros [x ->]. Qed.

(** [%] returns when the dictionary has the keys of the format string. *)
Lemma format_returns (template : list piece) (d : gmap string string) :
  (forall k, In (Key k) template -> is_Some (d !! k)) ->
  exists s, format template d = Returns s.
Proof.
  induction template as [|p template IH]; intros H; simpl; [eauto|].
  destruct IH as [r Hr]; [intros k Hk; apply H; now right|].
  destruct p as [s|k].
  - rewrite Hr. simpl. eauto.
  - destruct (H k) as [v Hv]; [now left|]. rewrite Hv, Hr. simpl. eauto.
Qed.

Lemma style_template_keys (k : string) :
  In (Key k) style_template ->
  k = "td-border-color"%string \/ k = "header-bg"%string \/
  k = "header-fg"%string \/ k = "th-border-color"%string.
Proof.
  unfold style_template. cbn [In].
  intros H.
  repeat (destruct H as [H|H];
          [first [discriminate H | (injection H as E; subst k; auto)] |]).
  destruct H.
Qed.

Lemma tbl_style_lookup (styles : gmap string string) (k : string) :
  snd (tbl_style styles) !! k =
  match styles !! k with
  | Some v => Some v
  | None => style_defaults !! k
  end.
Proof.
  unfold tbl_style, style_defaults. cbn [snd].
  rewrite !setdefault_lookup, !lookup_insert, lookup_empty.
  destruct (styles !! k); [reflexivity|].
  repeat (destruct (decide _); [reflexivity|]). reflexivity.
Qed.

Lemma tbl_style_has_defaults (styles : gmap string string) (k : string) :
  In (Key k) style_template -> is_Some (snd (tbl_style styles) !! k).
Proof.
  intros H. rewrite tbl_style_lookup.
  destruct (styles !! k); [eauto|].
  apply style_template_keys in H as [-> | [-> | [-> | ->]]]; vm_compute; eauto.
Qed.

Lemma tbl_style_returns (styles : gmap string string) :
  exists css, fst (tbl_style styles) = Returns css.
Proof.
  change (fst (tbl_style styles))
    with (format style_template (snd (tbl_style styles))).
  apply format_returns. intros k. apply tbl_style_has_defaults.
Qed.

Lemma index_first {A} (a : A) (l : list A) : py_index (a :: l) 0 = Returns a.
Proof.
  unfold py_index. replace (0 <? 0) with false by reflexivity.
  assert (((0 <=? 0) && (0 <? Z.of_nat (length (a :: l)))) = true) as ->
    by (apply andb_true_intro; split;
        [reflexivity | apply Z.ltb_lt; simpl length; lia]).
  reflexivity.
Qed.

(** X13: [tbl_style] returns for every dictionary, the empty one too: no key
    of the format string is missing when [%] is applied. The caller's
    dictionary is changed: the call leaves it with the caller's entries
    as they were and with the default for each of the four keys that it
    did not have. *)
Theorem tbl_style_fills_defaults (styles : gmap string string) :
  (exists css, fst (tbl_style styles) = Returns css) /\
  (forall k,
      snd (tbl_style styles) !! k =
      match styles !! k with
      | Some v => Some v
      | None => style_defaults !! k
      end).
Proof.
  split; [apply tbl_style_returns | apply tbl_style_lookup].
Qed.

Lemma tbl_style_again (styles : gmap string string) :
  tbl_style (snd (tbl_style styles)) = tbl_style styles.
Proof.
  set (d := snd (tbl_style styles)).
  assert (H : forall k, In (Key k) style_template -> is_Some (d !! k))
    by (intros k; apply tbl_style_has_defaults).
  assert (Hd : tbl_style d = (format style_template d, d)).
  { unfold tbl_style at 1.
    rewrite (setdefault_present "header-bg")
      by (apply H; unfold style_template; cbn [In]; auto 10).
    rewrite (setdefault_present "header-fg")
      by (apply H; unfold style_template; cbn [In]; auto 10).
    rewrite (setdefault_present "th-border-color")
      by (apply H; unfold style_template; cbn [In]; auto 10).
    rewrite (setdefault_present "td-border-color")
      by (apply H; unfold style_template; cbn [In]; auto 10).
    reflexivity. }
  rewrite Hd. reflexivity.
Qed.

(** X14: A call on the dictionary that a call has left returns the same text
    and changes nothing more. So it is with the dictionary of the default
    argument, which all calls [tbl_style()] share: from the second call
    on it is the four defaults, and each call returns the same style
    sheet. *)
Theorem tbl_style_idempotent (styles : gmap string string) :
  tbl_style (snd (tbl_style styles)) = tbl_style styles /\
  snd (tbl_style ∅) = style_defaults /\
  tbl_style (snd (tbl_style ∅)) = tbl_style ∅.
Proof.
  split; [apply tbl_style_again|]. split; [|apply tbl_style_again].
  apply map_eq. intros k. rewrite tbl_style_lookup, lookup_empty. reflexivity.
Qed.

(** X15: [list_to_tbl] raises [IndexError] for the empty list, before the
    dictionary of the default argument is touched. For every other list
    it returns, whatever [first_is_hdr] is, and leaves that dictionary as
    [tbl_style] leaves it. *)
Theorem list_to_tbl_empty_or_returns (lst : list (list string))
  (first_is_hdr : bool) (default_styles : gmap string string) :
  match lst with
  | [] =>
      list_to_tbl lst first_is_hdr default_styles =
      (Raises IndexError, default_styles)
  | _ :: _ =>
      exists html,
        list_to_tbl lst first_is_hdr default_styles =
        (Returns html, snd (tbl_style default_styles))
  end.
Proof.
  destruct lst as [|first rest]; [reflexivity|].
  unfold list_to_tbl.
  rewrite index_first.
  destruct (tbl_style_returns default_styles) as [css Hcss].
  destruct (tbl_style default_styles) as [style d] eqn:E.
  simpl in Hcss. subst style. simpl. eauto.
Qed.

Lemma string_app_cons (c : ascii) (s1 s2 : string) :
  (String c s1 ++ s2 = String c (s1 ++ s2))%string.
Proof. reflexivity. Qed.

Lemma string_app_assoc (s1 s2 s3 : string) :
  ((s1 ++ s2) ++ s3 = s1 ++ (s2 ++ s3))%string.
Proof.
  induction s1 as [|c s1 IH]; [reflexivity|].
  rewrite !string_app_cons. now rewrite IH.
Qed.

Lemma concat_cons (sep x : string) (l : list string) :
  l <> [] -> String.concat sep (x :: l) = (x ++ sep ++ String.concat sep l)%string.
Proof. destruct l; [congruence | reflexivity]. Qed.

(** A cell whose text has the markup that ends one cell and starts the
    next is rendered as the two cells. *)
Lemma cells_split (mk c1 c2 : string) (pre post : list string) :
  String.concat nl
    (map (fun c => "<" ++ mk ++ ">" ++ c ++ "</" ++ mk ++ ">")%string
       (pre ++ [(c1 ++ "</" ++ mk ++ ">" ++ nl ++ "<" ++ mk ++ ">" ++ c2)%string] ++ post)) =
  String.concat nl
    (map (fun c => "<" ++ mk ++ ">" ++ c ++ "</" ++ mk ++ ">")%string
       (pre ++ [c1; c2] ++ post)).
Proof.
  induction pre as [|p pre IH].
  - cbn [app map].
    destruct post as [|q post].
    + cbn [map String.concat]. rewrite !string_app_assoc. reflexivity.
    + rewrite !concat_cons by discriminate.
      rewrite !string_app_assoc. reflexivity.
  - cbn [app map] in *.
    rewrite !concat_cons by (destruct pre; discriminate).
    now rewrite IH.
Qed.

(** X16: [list_to_tbl] puts the text of a cell into the table as it is: a
    header cell whose text has [</th>], a line feed and [<th>] in it
    gives the table of the row with two cells in its place. The same
    table comes from different lists. *)
Theorem list_to_tbl_does_not_escape (c1 c2 : string) (pre post : list string)
  (rest : list (list string)) (first_is_hdr : bool)
  (default_styles : gmap string string) :
  list_to_tbl
    ((pre ++ [(c1 ++ "</th>" ++ nl ++ "<th>" ++ c2)%string] ++ post) :: rest)
    first_is_hdr default_styles =
  list_to_tbl ((pre ++ [c1; c2] ++ post) :: rest) first_is_hdr default_styles.
Proof.
  unfold list_to_tbl. rewrite !index_first. cbn [skipn].
  unfold rowg.
  change (c1 ++ "</th>" ++ nl ++ "<th>" ++ c2)%string
    with (c1 ++ "</" ++ "th" ++ ">" ++ nl ++ "<" ++ "th" ++ ">" ++ c2)%string.
  rewrite (cells_split "th" c1 c2 pre post). reflexivity.
Qed.

End OutlookHtmlFacts.

(** ** Facts about the class [Excel] *)

Module ExcelAppFacts.
Import ExcelApp.

(** X17: The second call of [Workbooks] for a file forgets that the first
    call has opened it. On a new object ([self.wbs] is empty), when the
    workbook is not open the first call opens it and records it with
    [True]; when the application then finds the open workbook by the name
    of the path, under the name it was recorded with, the second call
    records it with [False]; and [__del__] closes nothing and leaves the
    application as it is, with the workbook open. *)
Theorem second_call_forgets_opening
  (app workbook : Type)
  (Item : app -> string -> outcome workbook)
  (Open : app -> string -> outcome workbook * app)
  (Name : workbook -> string)
  (Close : app -> workbook -> outcome unit * app)
  (a a' : app) (name full : string) (wb wb' : workbook) (e : exn)
  (Hclosed : Item a name = Raises e)
  (Hopen : Open a full = (Returns wb, a'))
  (Hfound : Item a' name = Returns wb')
  (Hname : Name wb' = Name wb) :
  Workbooks app workbook Item Open Name a [] (PathObj name full) =
    (Returns wb, (a', [(Name wb, true)])) /\
  Workbooks app workbook Item Open Name a' [(Name wb, true)] (PathObj name full) =
    (Returns wb', (a', [(Name wb, false)])) /\
  del app workbook Item Close a' [(Name wb, false)] = (Returns tt, a').
Proof.
  split; [|split].
  - unfold Workbooks. rewrite Hclosed, Hopen. reflexivity.
  - unfold Workbooks. rewrite Hfound, Hname. simpl.
    now rewrite String.eqb_refl.
  - reflexivity.
Qed.

Lemma second_call_forgets_opening_witness :
  Workbooks (list string) string names_Item names_Open id [] []
    (PathObj "book.xlsx" "book.xlsx") =
    (Returns "book.xlsx"%string, (["book.xlsx"%string], [("book.xlsx"%string, true)])) /\
  Workbooks (list string) string names_Item names_Open id ["book.xlsx"%string]
    [("book.xlsx"%string, true)] (PathObj "book.xlsx" "book.xlsx") =
    (Returns "book.xlsx"%string, (["book.xlsx"%string], [("book.xlsx"%string, false)])) /\
  del (list string) string names_Item names_Close ["book.xlsx"%string]
    [("book.xlsx"%string, false)] = (Returns tt, ["book.xlsx"%string]).
Proof.
  apply (second_call_forgets_opening (list string) string
           names_Item names_Open id names_Close
           [] ["book.xlsx"%string] "book.xlsx" "book.xlsx"
           "book.xlsx"%string "book.xlsx"%string "com_error"%string);
    reflexivity.
Defined.

End ExcelAppFacts.

(** ** The run on the heap and the run on values *)

Module HeapRunFacts.
Import Outlook OutlookHeap HeapProps HeapFacts.

(** X12: The assignments through [this] change no slot that the loop has
    still to read: for a list of tuples at [appts], the run on the heap
    has the outcome of [find_open_slots] on the values and has printed
    the same lines when it returns; a run that raises or is still
    running has printed nothing. *)
Theorem heap_run_prints_as_values
  (fuel : nat) (a : nat) (duration : option Z) (appts : list (Z * Z))
  (w : world)
  (Ha : heap w !! a = Some (map VTuple appts)) :
  match Outlook.find_open_slots fuel appts duration with
  | Returns lines =>
      fst (OutlookHeap.find_open_slots fuel a duration w) = Returns tt /\
      stdout (snd (OutlookHeap.find_open_slots fuel a duration w)) =
        stdout w ++ lines
  | Raises e =>
      fst (OutlookHeap.find_open_slots fuel a duration w) = Raises e /\
      stdout (snd (OutlookHeap.find_open_slots fuel a duration w)) = stdout w
  | Diverges =>
      fst (OutlookHeap.find_open_slots fuel a duration w) = Diverges /\
      stdout (snd (OutlookHeap.find_open_slots fuel a duration w)) = stdout w
  end.
Proof.
  pose proof (find_open_slots_spec fuel a duration appts w Ha) as H.
  destruct (Outlook.find_open_slots fuel appts duration); simpl in H; tauto.
Qed.

Lemma heap_run_prints_as_values_witness :
  fst (OutlookHeap.find_open_slots 7 5 None two_appts_world) = Returns tt /\
  stdout (snd (OutlookHeap.find_open_slots 7 5 None two_appts_world)) =
    stdout two_appts_world ++
    [DateLine (OutlookProps.at_ 9 0);
     RangeLine (OutlookProps.at_ 9 0) (OutlookProps.at_ 10 0);
     RangeLine (OutlookProps.at_ 10 30) (OutlookProps.at_ 14 0)].
Proof.
  pose proof (heap_run_prints_as_values 7 5 None OutlookProps.two_appts
                two_appts_world eq_refl) as H.
  exact H.
Defined.

End HeapRunFacts.
